(** * mqtt-delta: the change detector of [src/main.ts]

    A shallow embedding of the message-processing core of [src/main.ts]
    ([getValueByPath], [shouldIgnorePath], [detectChanges] and the
    ['message'] handler of [connectAndSubscribe]) together with the part of
    the JavaScript runtime those functions rely on, and the properties the
    design document states about them.

    Modelling conventions.
    - A message is whatever [JSON.parse] returns: [Value] is the type of JSON
      values.  Numbers are IEEE-754 doubles (the kernel's [float]).  Strings
      are sequences of characters ([string]); the program only compares,
      concatenates and splits them.
    - An object lists its own properties in the order [for ... in],
      [Object.keys] and [JSON.stringify] enumerate them; its keys are
      pairwise distinct ([wf_value]).
    - [any] is [option Value]: [None] is [undefined].
    - Property reads see own properties (for an array and a string: the
      elements under their indices, and [length]).  The names the runtime's
      built-in prototypes supply ([constructor], [toString], [__proto__] and
      the like) are outside the model: neither the keys of a message nor the
      segments of a configured path are assumed to be among them.
    - [JSON.parse] and the number-to-text conversion of [JSON.stringify]
      belong to the runtime, not to the program: they are parameters
      ([Section Program]), instantiated in [Sample] to evaluate examples. *)

From Stdlib Require Import String Ascii List Bool Arith Lia ZArith.
From Stdlib Require Import Decimal DecimalString DecimalNat.
From Stdlib Require Import PrimFloat Uint63 SpecFloat FloatOps.
From Stdlib Require Import Permutation.
Import ListNotations.

Open Scope list_scope.
Open Scope string_scope.

Set Implicit Arguments.

(** ** The JavaScript runtime, as far as the program uses it *)

Module JS.

#[local] Unset Elimination Schemes.

(** A JSON value.  [VArr] and [VObj] are the two values whose [typeof] is
    ["object"] besides [null]. *)
Inductive Value : Type :=
| VNull
| VBool (b : bool)
| VNum (n : float)
| VStr (s : string)
| VArr (items : list Value)
| VObj (props : list (string * Value)).

#[local] Set Elimination Schemes.

(** [any]: a value or [undefined]. *)
Definition any : Type := option Value.
Definition undefined : any := None.

(** Structural induction through the nested lists. *)
Definition Value_ind (P : Value -> Prop)
  (Hnull : P VNull)
  (Hbool : forall b, P (VBool b))
  (Hnum : forall n, P (VNum n))
  (Hstr : forall s, P (VStr s))
  (Harr : forall items, Forall P items -> P (VArr items))
  (Hobj : forall props, Forall (fun kv => P (snd kv)) props -> P (VObj props))
  : forall v, P v :=
  fix go (v : Value) : P v :=
    match v with
    | VNull => Hnull
    | VBool b => Hbool b
    | VNum n => Hnum n
    | VStr s => Hstr s
    | VArr items =>
        Harr items
          ((fix all (l : list Value) : Forall P l :=
              match l with
              | [] => Forall_nil P
              | x :: l' => Forall_cons x (go x) (all l')
              end) items)
    | VObj props =>
        Hobj props
          ((fix all (l : list (string * Value))
              : Forall (fun kv => P (snd kv)) l :=
              match l with
              | [] => Forall_nil _
              | kv :: l' => Forall_cons kv (go (snd kv)) (all l')
              end) props)
    end.

(** *** Strings *)

(** [s.startsWith(p)]. *)
Definition startsWith (s p : string) : bool := String.prefix p s.

(** [s.split(sep)] for a one-character separator: never empty, and the
    empty string splits into one empty segment. *)
Fixpoint split (sep : ascii) (s : string) : list string :=
  match s with
  | EmptyString => [""]
  | String c s' =>
      if Ascii.eqb c sep then "" :: split sep s'
      else match split sep s' with
           | seg :: segs => String c seg :: segs
           | [] => [String c ""]
           end
  end.

(** A string is truthy when it is not empty. *)
Definition truthy_string (s : string) : bool :=
  match s with EmptyString => false | String _ _ => true end.

(** [xs.includes(x)] and [xs.some(f)] on an array of strings. *)
Definition includes (xs : list string) (x : string) : bool :=
  existsb (String.eqb x) xs.

Definition some (A : Type) (xs : list A) (f : A -> bool) : bool := existsb f xs.

(** *** Numbers *)

(** The decimal text of an array index, [String(i)]. *)
Definition index_key (i : nat) : string :=
  NilEmpty.string_of_uint (Nat.to_uint i).

(** The index a property key denotes, when the key is the canonical decimal
    text of a natural number (["7"], not ["07"] or [""]). *)
Definition array_index (key : string) : option nat :=
  match NilEmpty.uint_of_string key with
  | Some u =>
      let i := Nat.of_uint u in
      if String.eqb (index_key i) key then Some i else None
  | None => None
  end.

Definition number_of_nat (n : nat) : float :=
  PrimFloat.of_uint63 (Uint63.of_Z (Z.of_nat n)).

Definition is_nan (n : float) : bool := negb (PrimFloat.eqb n n).

(** *** typeof, truthiness, equality *)

(** [typeof x === 'object'], on [any]. *)
Definition typeof_object (x : any) : bool :=
  match x with
  | Some VNull | Some (VArr _) | Some (VObj _) => true
  | _ => false
  end.

(** [x === null]. *)
Definition is_null (x : any) : bool :=
  match x with Some VNull => true | _ => false end.

(** [x == null]: null or undefined. *)
Definition is_nullish (x : any) : bool :=
  match x with Some VNull | None => true | _ => false end.

(** [typeof x === 'object' && x !== null]. *)
Definition is_object (x : any) : bool := typeof_object x && negb (is_null x).

(** [!v]. *)
Definition falsy (v : Value) : bool :=
  match v with
  | VNull => true
  | VBool b => negb b
  | VNum n => PrimFloat.eqb n 0%float || is_nan n
  | VStr s => negb (truthy_string s)
  | VArr _ | VObj _ => false
  end.

(** [a === b] for operands that come from different allocations, as the two
    operands of the admission test do (a part of the parsed message against a
    value of the loaded configuration): primitives are compared by value,
    and two objects are never the same object. *)
Definition strict_equals (a b : any) : bool :=
  match a, b with
  | None, None => true
  | Some VNull, Some VNull => true
  | Some (VBool x), Some (VBool y) => Bool.eqb x y
  | Some (VNum x), Some (VNum y) => PrimFloat.eqb x y
  | Some (VStr x), Some (VStr y) => String.eqb x y
  | _, _ => false
  end.

(** *** Properties *)

Fixpoint lookup (key : string) (props : list (string * Value)) : any :=
  match props with
  | [] => undefined
  | (k, v) :: rest => if String.eqb key k then Some v else lookup key rest
  end.

(** The elements of an array under their index keys, from index [i] on. *)
Fixpoint indexed (i : nat) (items : list Value) : list (string * Value) :=
  match items with
  | [] => []
  | v :: rest => (index_key i, v) :: indexed (S i) rest
  end.

(** The characters of a string, each as a one-character string. *)
Fixpoint chars (s : string) : list Value :=
  match s with
  | EmptyString => []
  | String c s' => VStr (String c "") :: chars s'
  end.

(** [v[key]] for a value other than [null].  An array (and a string) has its
    elements under their index keys and a [length].  The program never reads
    a property of [null] or [undefined]: both readers test first. *)
Definition get (v : Value) (key : string) : any :=
  match v with
  | VObj props => lookup key props
  | VArr items =>
      if String.eqb key "length" then Some (VNum (number_of_nat (List.length items)))
      else match array_index key with
           | Some i => nth_error items i
           | None => undefined
           end
  | VStr s =>
      if String.eqb key "length" then Some (VNum (number_of_nat (String.length s)))
      else match array_index key with
           | Some i => nth_error (chars s) i
           | None => undefined
           end
  | VNull | VBool _ | VNum _ => undefined
  end.

(** The own enumerable properties of a value, in enumeration order: what
    [for (const key in v)] walks through, each key with [v[key]]. *)
Definition entries (v : Value) : list (string * Value) :=
  match v with
  | VObj props => props
  | VArr items => indexed 0 items
  | VStr s => indexed 0 (chars s)
  | VNull | VBool _ | VNum _ => []
  end.

(** [Object.keys(v)] for a value other than [null]. *)
Definition keys (v : Value) : list string := map fst (entries v).

(** [obj[key] = v] on a plain object: the property keeps its place when it
    exists and is appended otherwise. *)
Fixpoint set (props : list (string * Value)) (key : string) (v : Value)
  : list (string * Value) :=
  match props with
  | [] => [(key, v)]
  | (k, w) :: rest =>
      if String.eqb key k then (k, v) :: rest else (k, w) :: set rest key v
  end.

(** *** JSON.stringify *)

Definition hex_digit (n : nat) : ascii :=
  match n with
  | 0 => "0" | 1 => "1" | 2 => "2" | 3 => "3" | 4 => "4" | 5 => "5" | 6 => "6"
  | 7 => "7" | 8 => "8" | 9 => "9" | 10 => "a" | 11 => "b" | 12 => "c"
  | 13 => "d" | 14 => "e" | _ => "f"
  end%char.

(** The escape of one character inside a JSON string. *)
Definition escape (c : ascii) : string :=
  let n := nat_of_ascii c in
  if Nat.eqb n 34 then "\" ++ String c ""
  else if Nat.eqb n 92 then "\\"
  else if Nat.eqb n 8 then "\b"
  else if Nat.eqb n 9 then "\t"
  else if Nat.eqb n 10 then "\n"
  else if Nat.eqb n 12 then "\f"
  else if Nat.eqb n 13 then "\r"
  else if Nat.ltb n 32 then
    "\u00" ++ String (hex_digit (n / 16)) (String (hex_digit (n mod 16)) "")
  else String c "".

Fixpoint escape_all (s : string) : string :=
  match s with
  | EmptyString => ""
  | String c s' => escape c ++ escape_all s'
  end.

Definition dquote : ascii := ascii_of_nat 34.

Definition quote (s : string) : string :=
  String dquote (escape_all s ++ String dquote "").

Fixpoint join (sep : string) (parts : list string) : string :=
  match parts with
  | [] => ""
  | [p] => p
  | p :: rest => p ++ sep ++ join sep rest
  end.

Section Stringify.

(** [Number::toString] on a finite number. *)
Variable Number_toString : float -> string.

Definition is_finite (n : float) : bool :=
  negb (is_nan n) && negb (PrimFloat.eqb (PrimFloat.abs n) PrimFloat.infinity).

(** [JSON.stringify(v)] without indentation.  A number that is not finite
    is written [null]; an object writes its properties in its own order. *)
Fixpoint JSON_stringify (v : Value) : string :=
  match v with
  | VNull => "null"
  | VBool true => "true"
  | VBool false => "false"
  | VNum n => if is_finite n then Number_toString n else "null"
  | VStr s => quote s
  | VArr items => "[" ++ join "," (map JSON_stringify items) ++ "]"
  | VObj props =>
      "{" ++
      join "," (map (fun kv => quote (fst kv) ++ ":" ++ JSON_stringify (snd kv)) props)
      ++ "}"
  end.

(** [JSON.stringify(x)] on [any]: [undefined] for [undefined]. *)
Definition JSON_stringify_any (x : any) : option string :=
  option_map JSON_stringify x.

End Stringify.

(** Two results of [JSON.stringify] compared with [!==]. *)
Definition differ (a b : option string) : bool :=
  match a, b with
  | Some x, Some y => negb (String.eqb x y)
  | None, None => false
  | _, _ => true
  end.

End JS.

Import JS.

(** ** Configuration and state *)

(** [config.messageFiltering.condition]: the property to test and the value
    it must have.  The value is whatever the configuration file holds,
    [undefined] when it gives none. *)
Record FilterCondition : Type := {
  path : string;
  value : any
}.

(** [config.messageFiltering]; [condition] is [None] when the configuration
    has a [messageFiltering] entry without a condition. *)
Record MessageFiltering : Type := {
  condition : option FilterCondition
}.

Record Config : Type := {
  messageFiltering : MessageFiltering;
  ignoredKeys : list string;
  ignoredPaths : list string
}.

(** The default of [messageFiltering], used when the file has none. *)
Definition default_messageFiltering : MessageFiltering :=
  {| condition := Some {| path := ""; value := Some (VStr "") |} |}.

Inductive Level : Type := info | error.

(** One call of the logger: its level, its message and the further
    arguments that are text. *)
Record LogEntry : Type := {
  level : Level;
  message : string;
  meta : list string
}.

(** What the handler can change: the module variable [previousMessage]
    ([null] until a message has been accepted) and the log. *)
Record State : Type := {
  previousMessage : Value;
  log : list LogEntry
}.

Definition initial_state : State := {| previousMessage := VNull; log := [] |}.

(** The way one run of the handler took. *)
Inductive Outcome : Type :=
| Malformed                    (* [JSON.parse] threw *)
| NotAdmitted                  (* the early [return] of the filter *)
| Compared (changes : Value)   (* [detectChanges] ran, the baseline moved *)
| Failed (changes : Value).    (* [detectChanges] ran, a later step threw *)

(** ** The program *)

Section Program.

(** [Number::toString] and [JSON.parse] ([None]: it throws) of the runtime,
    and the configuration loaded at start-up. *)
Variable Number_toString : float -> string.
Variable JSON_parse : string -> option Value.
Variable config : Config.

(** The loop of [getValueByPath]: [current] after the keys so far. *)
Fixpoint walk (current : any) (keys : list string) : any :=
  match keys with
  | [] => current
  | key :: rest =>
      match current with
      | Some v =>
          if is_null current || negb (typeof_object current) then undefined
          else walk (get v key) rest
      | None => undefined
      end
  end.

Definition getValueByPath (obj : Value) (path : string) : any :=
  if negb (truthy_string path) then undefined
  else walk (Some obj) (split "." path).

Definition shouldIgnorePath (path : string) : bool :=
  some (ignoredPaths config) (fun ignoredPath =>
    if String.eqb ignoredPath path then true
    else if startsWith path (ignoredPath ++ ".") then true
    else false).

(** [currentPath ? `${currentPath}.${key}` : key]. *)
Definition propertyPath (currentPath key : string) : string :=
  if truthy_string currentPath then currentPath ++ "." ++ key else key.

(** The body of the loop of [detectChanges] for one [key] of [current],
    with [cv] for [current[key]]; [nested pv p] stands for the recursive
    call [detectChanges(pv, cv, p)]. *)
Definition compare_key (nested : Value -> string -> Value)
  (previous : Value) (currentPath key : string) (cv : Value)
  (changes : list (string * Value)) : list (string * Value) :=
  if includes (ignoredKeys config) key then changes
  else if shouldIgnorePath (propertyPath currentPath key) then changes
  else
    match get previous key with
    | Some pv =>
        if is_object (Some cv) && is_object (Some pv) then
          let nestedChanges := nested pv (propertyPath currentPath key) in
          if Nat.ltb 0 (List.length (keys nestedChanges))
          then set changes key nestedChanges
          else changes
        else if differ (JSON_stringify_any Number_toString (Some cv))
                       (JSON_stringify_any Number_toString (Some pv))
        then set changes key cv
        else changes
    | None =>
        (* [typeof undefined] is not ['object'] *)
        if differ (JSON_stringify_any Number_toString (Some cv))
                  (JSON_stringify_any Number_toString undefined)
        then set changes key cv
        else changes
    end.

(** [detectChanges(previous, current, currentPath)].  The loop runs over the
    own enumerable properties of [current]: the properties of an object, the
    elements of an array under their indices, the characters of a string
    (which are strings, so that there the recursive call is never made). *)
Fixpoint detectChanges (previous current : Value) (currentPath : string)
  {struct current} : Value :=
  if falsy previous then current
  else
    VObj
      match current with
      | VObj props =>
          (fix loop (es : list (string * Value)) (changes : list (string * Value)) :=
             match es with
             | [] => changes
             | (key, cv) :: rest =>
                 loop rest
                   (compare_key (fun pv p => detectChanges pv cv p)
                      previous currentPath key cv changes)
             end) props []
      | VArr items =>
          (fix loop (vs : list Value) (i : nat) (changes : list (string * Value)) :=
             match vs with
             | [] => changes
             | cv :: rest =>
                 loop rest (S i)
                   (compare_key (fun pv p => detectChanges pv cv p)
                      previous currentPath (index_key i) cv changes)
             end) items 0 []
      | VStr s =>
          fold_left
            (fun changes kv =>
               compare_key (fun _ _ => VObj []) previous currentPath
                 (fst kv) (snd kv) changes)
            (indexed 0 (chars s)) []
      | VNull | VBool _ | VNum _ => []
      end.

(** The admission test of the handler: [true] when the handler returns
    before comparing. *)
Definition rejects (jsonMessage : Value) : bool :=
  match condition (messageFiltering config) with
  | Some c =>
      truthy_string (path c)
      && negb (strict_equals (getValueByPath jsonMessage (path c)) (value c))
  | None => false
  end.

(** The [catch] block. *)
Definition caught (st : State) (raw : string) : State :=
  {| previousMessage := previousMessage st;
     log := (log st ++
             [ {| level := error; message := "Error processing message:"; meta := [] |};
               {| level := info; message := "Raw message:"; meta := [raw] |} ])%list |}.

(** The handler of ['message'] events. *)
Definition on_message (st : State) (topic raw : string) : State * Outcome :=
  match JSON_parse raw with
  | None => (caught st raw, Malformed)
  | Some jsonMessage =>
      if rejects jsonMessage then (st, NotAdmitted)
      else
        let changes := detectChanges (previousMessage st) jsonMessage "" in
        if negb (is_nullish (Some (previousMessage st))) then
          (* [Object.keys(changes)] throws on [null] *)
          if is_null (Some changes) then (caught st raw, Failed changes)
          else if Nat.ltb 0 (List.length (keys changes)) then
            ({| previousMessage := jsonMessage;
                log := (log st ++
                        [ {| level := info;
                             message := JSON_stringify Number_toString changes;
                             meta := [] |} ])%list |},
             Compared changes)
          else ({| previousMessage := jsonMessage; log := log st |}, Compared changes)
        else ({| previousMessage := jsonMessage; log := log st |}, Compared changes)
  end.

(** The handler over a sequence of messages, oldest first. *)
Definition run (st : State) (raws : list string) : State :=
  fold_left (fun s raw => fst (on_message s "" raw)) raws st.

End Program.

Arguments walk current keys : simpl nomatch.

(** ** The default log file name *)

(** What [generateDefaultLogFilename] reads from [new Date()]: the local
    year, month (from 0), day of the month, hours, minutes and seconds. *)
Record Date : Type := {
  getFullYear : nat;
  getMonth : nat;
  getDate : nat;
  getHours : nat;
  getMinutes : nat;
  getSeconds : nat
}.

(** [s.padStart(targetLength, c)] for a one-character pad string. *)
Fixpoint pad (n : nat) (c : ascii) : string :=
  match n with 0 => "" | S n' => String c (pad n' c) end.

Definition padStart (s : string) (targetLength : nat) (c : ascii) : string :=
  if Nat.leb targetLength (String.length s) then s
  else pad (targetLength - String.length s) c ++ s.

(** [String(n)] for a natural number. *)
Definition String_of (n : nat) : string := index_key n.

(** [generateDefaultLogFilename()], with the clock read as [now]. *)
Definition generateDefaultLogFilename (now : Date) : string :=
  let year := getFullYear now in
  let month := padStart (String_of (getMonth now + 1)) 2 "0" in
  let day := padStart (String_of (getDate now)) 2 "0" in
  let hours := padStart (String_of (getHours now)) 2 "0" in
  let minutes := padStart (String_of (getMinutes now)) 2 "0" in
  let seconds := padStart (String_of (getSeconds now)) 2 "0" in
  "mqtt-delta-" ++ String_of year ++ "-" ++ month ++ "-" ++ day ++ "-" ++
  hours ++ "-" ++ minutes ++ "-" ++ seconds ++ ".log".

(** A calendar date and time of day, with a year of four digits. *)
Definition valid_date (d : Date) : bool :=
  Nat.eqb (String.length (String_of (getFullYear d))) 4
  && Nat.leb (getMonth d) 11
  && Nat.leb 1 (getDate d) && Nat.leb (getDate d) 31
  && Nat.leb (getHours d) 23 && Nat.leb (getMinutes d) 59
  && Nat.leb (getSeconds d) 59.

(** ** Auxiliary notions for the further properties *)

(** The character occurs in the string. *)
Fixpoint contains (c : ascii) (s : string) : bool :=
  match s with
  | EmptyString => false
  | String d s' => Ascii.eqb d c || contains c s'
  end.

(** A decimal digit, and a text of decimal digits. *)
Definition is_digit (c : ascii) : bool :=
  Nat.leb 48 (nat_of_ascii c) && Nat.leb (nat_of_ascii c) 57.

Fixpoint all_digits (s : string) : bool :=
  match s with
  | EmptyString => true
  | String c s' => is_digit c && all_digits s'
  end.

(** The properties whose key has no dot. *)
Definition undotted (props : list (string * Value)) : list (string * Value) :=
  filter (fun kv => negb (contains "." (fst kv))) props.

(** ** The change recorded for one key *)

Section Change.

Variable Number_toString : float -> string.
Variable config : Config.

(** What one pass of the loop of [detectChanges] assigns to [changes[key]]:
    [None] when it assigns nothing ([compare_key_change_of]). *)
Definition change_of (nested : Value -> string -> Value)
  (previous : Value) (currentPath key : string) (cv : Value) : option Value :=
  if includes (ignoredKeys config) key then None
  else if shouldIgnorePath config (propertyPath currentPath key) then None
  else
    match get previous key with
    | Some pv =>
        if is_object (Some cv) && is_object (Some pv) then
          let nestedChanges := nested pv (propertyPath currentPath key) in
          if Nat.ltb 0 (List.length (keys nestedChanges))
          then Some nestedChanges else None
        else if differ (JSON_stringify_any Number_toString (Some cv))
                       (JSON_stringify_any Number_toString (Some pv))
        then Some cv else None
    | None => Some cv
    end.

(** The loop of [detectChanges] over a list of properties of [current]. *)
Definition compare_all (previous : Value) (currentPath : string)
  (es : list (string * Value)) (changes : list (string * Value))
  : list (string * Value) :=
  fold_left
    (fun changes kv =>
       compare_key Number_toString config
         (fun pv p => detectChanges Number_toString config pv (snd kv) p)
         previous currentPath (fst kv) (snd kv) changes)
    es changes.

End Change.

(** ** Well-formed values *)

(** No string occurs twice. *)
Fixpoint distinct (ks : list string) : bool :=
  match ks with
  | [] => true
  | k :: rest => negb (includes rest k) && distinct rest
  end.

(** The keys of every object inside the value are pairwise distinct, as
    they are in every value [JSON.parse] builds. *)
Fixpoint wf_value (v : Value) : bool :=
  match v with
  | VObj props =>
      distinct (map fst props) && forallb (fun kv => wf_value (snd kv)) props
  | VArr items => forallb wf_value items
  | VNull | VBool _ | VNum _ | VStr _ => true
  end.

(** ** An instance of the runtime parameters, for evaluating examples *)

Module Sample.

Definition decimal (z : Z) : string := NilEmpty.string_of_int (Z.to_int z).

Fixpoint zeros (n : nat) : string :=
  match n with 0 => "" | S n' => String "0" (zeros n') end.

(** The exact decimal text of [m / 2^k] for odd [m] and [0 < k]. *)
Definition fraction (m : Z) (k : nat) : string :=
  let digits := decimal (m * 5 ^ Z.of_nat k) in
  let len := String.length digits in
  if Nat.leb len k then "0." ++ zeros (k - len) ++ digits
  else substring 0 (len - k) digits ++ "." ++ substring (len - k) k digits.

(** The exact decimal text of a finite number.  It is the text
    [Number::toString] gives for the integers up to [2^53] and for fractions
    such as [22.5] or [0.125], whose shortest text is the exact one; on
    other numbers the runtime's text is shorter or uses an exponent. *)
Definition Number_toString (n : float) : string :=
  match FloatOps.Prim2SF n with
  | SpecFloat.S754_zero _ => "0"
  | SpecFloat.S754_finite s m e =>
      let sign := if s then "-" else "" in
      if (0 <=? e)%Z then sign ++ decimal (Z.pos m * 2 ^ e)
      else
        let g := Z.gcd (Z.pos m) (2 ^ (- e)) in
        let k := Z.to_nat (Z.log2 (2 ^ (- e) / g)) in
        if Nat.eqb k 0 then sign ++ decimal (Z.pos m / g)
        else sign ++ fraction (Z.pos m / g) k
  | SpecFloat.S754_infinity s => if s then "-Infinity" else "Infinity"
  | SpecFloat.S754_nan => "NaN"
  end.

(** Messages after those of [src/test-publisher.ts] (with [23.5] where the
    publisher sends [23.1], which has no exact binary value), two messages
    for a filter on [print.command], and a message with a sequence. *)
Definition device (battery : float) : Value :=
  VObj [("id", VStr "sensor-01"); ("battery", VNum battery);
        ("location", VStr "living-room")].

Definition initialMessage : Value :=
  VObj [("temperature", VNum 22.5); ("humidity", VNum 45);
        ("status", VStr "normal"); ("device", device 98)].

Definition updatedMessage : Value :=
  VObj [("temperature", VNum 23.5); ("humidity", VNum 45);
        ("status", VStr "normal"); ("device", device 97)].

Definition finalMessage : Value :=
  VObj [("temperature", VNum 23.5); ("humidity", VNum 47);
        ("status", VStr "warning"); ("device", device 97)].

Definition pushStatus : Value :=
  VObj [("print", VObj [("command", VStr "push_status"); ("layer", VNum 3)])].

Definition otherCommand : Value :=
  VObj [("print", VObj [("command", VStr "get_version")])].

Definition withSequence : Value :=
  VObj [("a", VArr [VNum 10; VNum 20])].

Definition messages : list Value :=
  [initialMessage; updatedMessage; finalMessage; pushStatus; otherCommand;
   withSequence].

(** A decoder that knows the texts of [messages] and rejects every other
    payload. *)
Definition JSON_parse (raw : string) : option Value :=
  find (fun v => String.eqb (JSON_stringify Number_toString v) raw) messages.

Definition text (v : Value) : string := JSON_stringify Number_toString v.

Definition no_rules : Config :=
  {| messageFiltering := default_messageFiltering;
     ignoredKeys := []; ignoredPaths := [] |}.

Definition battery_rule : Config :=
  {| messageFiltering := default_messageFiltering;
     ignoredKeys := []; ignoredPaths := ["device.battery"] |}.

Definition temperature_rule : Config :=
  {| messageFiltering := default_messageFiltering;
     ignoredKeys := ["temperature"]; ignoredPaths := [] |}.

Definition push_status_only : Config :=
  {| messageFiltering :=
       {| condition := Some {| path := "print.command";
                               value := Some (VStr "push_status") |} |};
     ignoredKeys := []; ignoredPaths := [] |}.

End Sample.

(** ** Two statements of the design document, in its own words *)

(** Resolution of the path [p] in [V] has come to [w] with the segment
    [key] next and the segments [rest] after it. *)
Definition reaches (V : Value) (p : string) (w : any) (key : string)
  (rest : list string) : Prop :=
  exists before,
    split "." p = (before ++ key :: rest)%list /\ walk (Some V) before = w.

(** "If at any step the current value is not a mapping (including when it
    is a sequence, a scalar, or null), resolution stops and returns absent." *)
Definition never_indexes_sequences : Prop :=
  forall V p w key rest,
    p <> "" -> reaches V p (Some w) key rest ->
    (forall props, w <> VObj props) ->
    getValueByPath V p = undefined.

(** "Two mappings with identical key/value pairs but different insertion
    order are not considered equal", so that the key is reported "with the
    raw current value (not a sub-diff)". *)
Definition reordered_mapping_reported (Number_toString : float -> string)
  (config : Config) : Prop :=
  exists P C k ps cs,
    wf_value P = true /\ wf_value C = true /\
    get P k = Some (VObj ps) /\ get C k = Some (VObj cs) /\
    Permutation ps cs /\ ps <> cs /\
    get (detectChanges Number_toString config P C "") k = Some (VObj cs).

(** ** Strings, keys and properties *)

Lemma append_assoc (a b c : string) : (a ++ b) ++ c = a ++ b ++ c.
Proof.
  induction a as [|x a IH]; simpl; [reflexivity | now f_equal].
Qed.

Lemma startsWith_app (s p : string) :
  startsWith s p = true <-> exists rest, s = p ++ rest.
Proof.
  unfold startsWith. revert s.
  induction p as [|c p IH]; intros s; simpl.
  - split; [intros _; now exists s | intros _; now destruct s].
  - destruct s as [|d s]; simpl.
    + split; [discriminate | intros [rest H]; discriminate].
    + destruct (ascii_dec c d) as [->|Hcd].
      * rewrite IH. split; intros [rest H]; exists rest; congruence.
      * split; [discriminate | intros [rest H]; congruence].
Qed.

Lemma includes_In (xs : list string) (x : string) :
  includes xs x = true <-> In x xs.
Proof.
  unfold includes. rewrite existsb_exists. split.
  - intros [y [Hy Heq]]. apply String.eqb_eq in Heq. now subst.
  - intros H. exists x. split; [assumption | apply String.eqb_refl].
Qed.

Lemma distinct_NoDup (ks : list string) : distinct ks = true <-> NoDup ks.
Proof.
  induction ks as [|k ks IH]; simpl.
  - split; [constructor | reflexivity].
  - rewrite andb_true_iff, negb_true_iff, IH. split.
    + intros [Hk Hks]. constructor; [|assumption].
      intros Hin. apply includes_In in Hin. congruence.
    + intros H. inversion H as [|? ? Hk Hks]; subst. split; [|assumption].
      destruct (includes ks k) eqn:E; [|reflexivity].
      apply includes_In in E. contradiction.
Qed.

Lemma lookup_In (key : string) (props : list (string * Value)) (v : Value) :
  lookup key props = Some v -> In (key, v) props.
Proof.
  induction props as [|[k w] rest IH]; simpl; [discriminate|].
  destruct (String.eqb_spec key k) as [->|Hne].
  - intros [= ->]. now left.
  - intros H. right. auto.
Qed.

Lemma In_lookup (key : string) (props : list (string * Value)) (v : Value) :
  NoDup (map fst props) -> In (key, v) props -> lookup key props = Some v.
Proof.
  induction props as [|[k w] rest IH]; simpl; [contradiction|].
  intros Hnd Hin. inversion Hnd as [|? ? Hk Hrest]; subst.
  destruct Hin as [[= -> ->]|Hin].
  - now rewrite String.eqb_refl.
  - destruct (String.eqb_spec key k) as [->|Hne]; [|auto].
    exfalso. apply Hk. change k with (fst (k, v)). now apply in_map.
Qed.

Lemma lookup_None (key : string) (props : list (string * Value)) :
  lookup key props = None <-> ~ In key (map fst props).
Proof.
  induction props as [|[k w] rest IH]; simpl.
  - tauto.
  - destruct (String.eqb_spec key k) as [->|Hne].
    + split; [discriminate | intros H; exfalso; apply H; now left].
    + rewrite IH. split; [intros H [E|E]; [congruence|contradiction] | tauto].
Qed.

Lemma lookup_set_same (props : list (string * Value)) (key : string) (v : Value) :
  lookup key (set props key v) = Some v.
Proof.
  induction props as [|[k w] rest IH]; simpl.
  - now rewrite String.eqb_refl.
  - destruct (String.eqb_spec key k) as [->|Hne]; simpl.
    + now rewrite String.eqb_refl.
    + destruct (String.eqb_spec key k); [contradiction | assumption].
Qed.

Lemma lookup_set_other (props : list (string * Value)) (key k' : string) (v : Value) :
  k' <> key -> lookup k' (set props key v) = lookup k' props.
Proof.
  intros Hne. induction props as [|[k w] rest IH]; simpl.
  - destruct (String.eqb_spec k' key); [contradiction | reflexivity].
  - destruct (String.eqb_spec key k) as [->|Hk]; simpl.
    + destruct (String.eqb_spec k' k); [contradiction | reflexivity].
    + now rewrite IH.
Qed.

Lemma keys_set (props : list (string * Value)) (key k' : string) (v : Value) :
  In k' (map fst (set props key v)) -> k' = key \/ In k' (map fst props).
Proof.
  induction props as [|[k w] rest IH]; simpl.
  - intros [H|[]]. now left.
  - destruct (String.eqb_spec key k) as [->|Hk]; simpl.
    + tauto.
    + intros [H|H]; [tauto|]. apply IH in H. tauto.
Qed.

(** *** Index keys *)

Lemma array_index_key (i : nat) : array_index (index_key i) = Some i.
Proof.
  unfold array_index, index_key.
  rewrite NilEmpty.usu, DecimalNat.Unsigned.of_to.
  now rewrite String.eqb_refl.
Qed.

Lemma array_index_inv (key : string) (i : nat) :
  array_index key = Some i -> key = index_key i.
Proof.
  unfold array_index.
  destruct (NilEmpty.uint_of_string key) as [u|]; [|discriminate].
  destruct (String.eqb_spec (index_key (Nat.of_uint u)) key) as [E|E];
    [|discriminate].
  intros [= <-]. now symmetry.
Qed.

Lemma index_key_inj (i j : nat) : index_key i = index_key j -> i = j.
Proof.
  intros H. apply (f_equal array_index) in H.
  rewrite !array_index_key in H. congruence.
Qed.

Lemma index_key_not_length (i : nat) : String.eqb (index_key i) "length" = false.
Proof.
  apply String.eqb_neq. intros H.
  apply (f_equal NilEmpty.uint_of_string) in H.
  unfold index_key in H. rewrite NilEmpty.usu in H. discriminate.
Qed.

Lemma In_indexed (j : nat) (items : list Value) (k : string) (v : Value) :
  In (k, v) (indexed j items) <->
  exists i, k = index_key (j + i) /\ nth_error items i = Some v.
Proof.
  revert j. induction items as [|x rest IH]; intros j; simpl.
  - split; [contradiction | intros [[|i] [_ H]]; discriminate].
  - rewrite IH. split.
    + intros [[= <- <-]|[i [Hk Hi]]].
      * exists 0. now rewrite Nat.add_0_r.
      * exists (S i). now rewrite Nat.add_succ_r.
    + intros [[|i] [Hk Hi]]; simpl in Hi.
      * left. rewrite Nat.add_0_r in Hk. congruence.
      * right. exists i. now rewrite Nat.add_succ_r in Hk.
Qed.

Lemma indexed_keys_NoDup (j : nat) (items : list Value) :
  NoDup (map fst (indexed j items)).
Proof.
  revert j. induction items as [|x rest IH]; intros j; simpl; constructor; [|apply IH].
  rewrite in_map_iff. intros [[k v] [Hk Hin]]. simpl in Hk. subst k.
  apply In_indexed in Hin. destruct Hin as [i [Hk _]].
  apply index_key_inj in Hk. lia.
Qed.

Lemma lookup_indexed (items : list Value) (i : nat) :
  lookup (index_key i) (indexed 0 items) = nth_error items i.
Proof.
  destruct (nth_error items i) as [v|] eqn:E.
  - apply In_lookup; [apply indexed_keys_NoDup|].
    apply In_indexed. now exists i.
  - apply lookup_None. rewrite in_map_iff. intros [[k v] [Hk Hin]].
    simpl in Hk. subst k. apply In_indexed in Hin. destruct Hin as [i' [Hk Hi]].
    apply index_key_inj in Hk. simpl in Hk. subst i'. congruence.
Qed.

Lemma get_array_index (items : list Value) (i : nat) :
  get (VArr items) (index_key i) = nth_error items i.
Proof.
  simpl. now rewrite index_key_not_length, array_index_key.
Qed.

Lemma get_string_index (s : string) (i : nat) :
  get (VStr s) (index_key i) = nth_error (chars s) i.
Proof.
  simpl. now rewrite index_key_not_length, array_index_key.
Qed.

(** *** Well-formed values *)

Lemma wf_keys_NoDup (v : Value) : wf_value v = true -> NoDup (keys v).
Proof.
  destruct v as [| | | s | items | props]; unfold keys; simpl;
    try (intros _; constructor).
  - intros _. apply indexed_keys_NoDup.
  - intros _. apply indexed_keys_NoDup.
  - rewrite andb_true_iff. intros [H _]. now apply distinct_NoDup.
Qed.

Lemma wf_chars (s : string) (x : Value) : In x (chars s) -> wf_value x = true.
Proof.
  induction s as [|c s IH]; simpl; [contradiction|].
  intros [<-|H]; [reflexivity | auto].
Qed.

Lemma wf_entry (v : Value) (k : string) (x : Value) :
  wf_value v = true -> In (k, x) (entries v) -> wf_value x = true.
Proof.
  destruct v as [| | | s | items | props]; simpl; try contradiction.
  - intros _ H. apply In_indexed in H. destruct H as [i [_ Hi]].
    apply nth_error_In in Hi. eapply wf_chars; eassumption.
  - intros Hwf H. apply In_indexed in H. destruct H as [i [_ Hi]].
    apply nth_error_In in Hi. rewrite forallb_forall in Hwf. auto.
  - rewrite andb_true_iff, forallb_forall. intros [_ Hwf] H.
    apply (Hwf (k, x) H).
Qed.

(** Reading a property that [for ... in] has enumerated gives the value it
    was enumerated with. *)
Lemma get_entry (v : Value) (k : string) (x : Value) :
  wf_value v = true -> In (k, x) (entries v) -> get v k = Some x.
Proof.
  intros Hwf Hin. pose proof (wf_keys_NoDup v Hwf) as Hnd.
  destruct v as [| | | s | items | props]; simpl in Hin; try contradiction.
  - apply In_indexed in Hin. destruct Hin as [i [-> Hi]].
    now rewrite get_string_index.
  - apply In_indexed in Hin. destruct Hin as [i [-> Hi]].
    now rewrite get_array_index.
  - simpl. now apply In_lookup.
Qed.

Lemma get_wf (v : Value) (k : string) (x : Value) :
  wf_value v = true -> get v k = Some x -> wf_value x = true.
Proof.
  destruct v as [| | | s | items | props]; simpl; try discriminate.
  - intros _. destruct (String.eqb k "length"); [now intros [= <-]|].
    destruct (array_index k) as [i|]; [|discriminate].
    intros H. apply nth_error_In in H. eapply wf_chars; eassumption.
  - intros Hwf. destruct (String.eqb k "length"); [now intros [= <-]|].
    destruct (array_index k) as [i|]; [|discriminate].
    intros H. apply nth_error_In in H. rewrite forallb_forall in Hwf. auto.
  - intros Hwf H. apply lookup_In in H.
    apply (wf_entry (VObj props) k x Hwf H).
Qed.

Lemma is_object_truthy (v : Value) : is_object (Some v) = true -> falsy v = false.
Proof. destruct v; simpl; intros H; try discriminate; reflexivity. Qed.

Lemma get_Some_truthy_object (v : Value) (k : string) (x : Value) :
  get v k = Some x -> is_object (Some x) = true -> falsy v = false.
Proof.
  destruct v as [| | | s | items | props]; simpl; try discriminate; try reflexivity.
  destruct (String.eqb k "length"); [intros [= <-]; discriminate|].
  destruct (array_index k) as [i|]; [|discriminate].
  intros H Hobj. apply nth_error_In in H.
  exfalso. clear -H Hobj. induction s as [|c s IH]; simpl in H; [contradiction|].
  destruct H as [<-|H]; [discriminate | auto].
Qed.

(** ** The loop of detectChanges *)

Section Loop.

Variable Number_toString : float -> string.
Variable config : Config.

Local Abbreviation diff := (detectChanges Number_toString config).
Local Abbreviation compare := (compare_key Number_toString config).
Local Abbreviation change := (change_of Number_toString config).
Local Abbreviation loop := (compare_all Number_toString config).

Lemma compare_key_change_of nested previous currentPath key cv changes :
  compare nested previous currentPath key cv changes =
  match change nested previous currentPath key cv with
  | Some x => set changes key x
  | None => changes
  end.
Proof.
  unfold compare_key, change_of.
  destruct (includes (ignoredKeys config) key); [reflexivity|].
  destruct (shouldIgnorePath config (propertyPath currentPath key)); [reflexivity|].
  destruct (get previous key) as [pv|]; [|reflexivity].
  destruct (is_object (Some cv) && is_object (Some pv)).
  - cbv zeta. now destruct (Nat.ltb 0 _).
  - now destruct (differ _ _).
Qed.

(** The recursive call is not made for a property that is not an object. *)
Lemma compare_key_scalar nested nested' previous currentPath key cv changes :
  is_object (Some cv) = false ->
  compare nested previous currentPath key cv changes =
  compare nested' previous currentPath key cv changes.
Proof.
  intros H. unfold compare_key. rewrite H. reflexivity.
Qed.

Lemma chars_scalar (s : string) (i : nat) :
  Forall (fun kv => is_object (Some (snd kv)) = false) (indexed i (chars s)).
Proof.
  revert i. induction s as [|c s IH]; intros i; simpl; constructor; auto.
Qed.

Lemma compare_all_scalars nested previous currentPath es changes :
  Forall (fun kv => is_object (Some (snd kv)) = false) es ->
  fold_left
    (fun changes kv =>
       compare nested previous currentPath (fst kv) (snd kv) changes)
    es changes
  = loop previous currentPath es changes.
Proof.
  unfold compare_all. intros H. revert changes.
  induction H as [|kv es Hkv _ IH]; intros changes; [reflexivity|].
  cbn [fold_left]. rewrite IH. f_equal. now apply compare_key_scalar.
Qed.

(** [detectChanges] as one loop over the enumerated properties. *)
Lemma detectChanges_eq previous current currentPath :
  diff previous current currentPath =
  if falsy previous then current
  else VObj (loop previous currentPath (entries current) []).
Proof.
  destruct current as [| b | n | s | items | props];
    cbn [detectChanges entries]; destruct (falsy previous);
    try reflexivity; f_equal.
  - apply compare_all_scalars, chars_scalar.
  - unfold compare_all. generalize (@nil (string * Value)). generalize 0.
    induction items as [|x rest IH]; intros i changes; [reflexivity|].
    cbn [indexed fold_left fst snd]. apply IH.
  - unfold compare_all. generalize (@nil (string * Value)).
    induction props as [|[k x] rest IH]; intros changes; [reflexivity|].
    cbn [fold_left fst snd]. apply IH.
Qed.

Lemma loop_cons previous currentPath k cv es changes :
  loop previous currentPath ((k, cv) :: es) changes =
  loop previous currentPath es
    match change (fun pv p => diff pv cv p) previous currentPath k cv with
    | Some x => set changes k x
    | None => changes
    end.
Proof.
  unfold compare_all. cbn [fold_left fst snd].
  now rewrite compare_key_change_of.
Qed.

(** Every key of the result was there before or is a key of [current]. *)
Lemma loop_keys previous currentPath es changes k :
  In k (map fst (loop previous currentPath es changes)) ->
  In k (map fst changes) \/ In k (map fst es).
Proof.
  revert changes. induction es as [|[k1 cv] es IH]; intros changes.
  - now left.
  - rewrite loop_cons. intros H. apply IH in H. simpl.
    destruct H as [H|H]; [|tauto].
    destruct (change _ previous currentPath k1 cv); [|tauto].
    apply keys_set in H. destruct H as [->|H]; tauto.
Qed.

(** What the result holds under a key, for properties with distinct keys. *)
Lemma loop_lookup previous currentPath es changes k :
  NoDup (map fst es) ->
  lookup k (loop previous currentPath es changes) =
  match lookup k es with
  | Some cv =>
      match change (fun pv p => diff pv cv p) previous currentPath k cv with
      | Some x => Some x
      | None => lookup k changes
      end
  | None => lookup k changes
  end.
Proof.
  revert changes. induction es as [|[k1 cv] es IH]; intros changes Hnd.
  - reflexivity.
  - inversion Hnd as [|? ? Hk1 Hes]; subst.
    rewrite loop_cons, (IH _ Hes). cbn [lookup].
    destruct (String.eqb_spec k k1) as [->|Hne].
    + replace (lookup k1 es) with (@None Value)
        by (symmetry; now apply lookup_None).
      destruct (change _ previous currentPath k1 cv).
      * apply lookup_set_same.
      * reflexivity.
    + assert (E : lookup k
                (match change (fun pv p => diff pv cv p) previous currentPath k1 cv with
                 | Some x => set changes k1 x
                 | None => changes
                 end) = lookup k changes).
      { destruct (change _ previous currentPath k1 cv); [|reflexivity].
        now apply lookup_set_other. }
      now rewrite E.
Qed.

Lemma loop_unchanged previous currentPath es changes :
  (forall k cv, In (k, cv) es ->
     change (fun pv p => diff pv cv p) previous currentPath k cv = None) ->
  loop previous currentPath es changes = changes.
Proof.
  induction es as [|[k cv] es IH]; intros H; [reflexivity|].
  rewrite loop_cons, (H k cv (or_introl eq_refl)).
  apply IH. intros k' cv' Hin. apply H. now right.
Qed.

(** A property whose previous value is the current one records no change,
    provided comparing an object with itself records none. *)
Lemma change_same previous currentPath k cv :
  get previous k = Some cv ->
  (is_object (Some cv) = true ->
   diff cv cv (propertyPath currentPath k) = VObj []) ->
  change (fun pv p => diff pv cv p) previous currentPath k cv = None.
Proof.
  intros Hget Hself. unfold change_of.
  destruct (includes (ignoredKeys config) k); [reflexivity|].
  destruct (shouldIgnorePath config (propertyPath currentPath k)); [reflexivity|].
  rewrite Hget. destruct (is_object (Some cv)) eqn:Hobj; cbn [andb].
  - cbv zeta. now rewrite (Hself eq_refl).
  - simpl. now rewrite String.eqb_refl.
Qed.

(** Comparing a value with itself records nothing, under any rules and at
    any path. *)
Lemma detectChanges_self (x : Value) :
  wf_value x = true -> falsy x = false ->
  forall currentPath, diff x x currentPath = VObj [].
Proof.
  induction x as [| b | n | s | items IH | props IH] using JS.Value_ind;
    intros Hwf Htruthy currentPath; rewrite detectChanges_eq, Htruthy;
    try reflexivity; f_equal; apply loop_unchanged; intros k cv Hin;
    (apply change_same; [now apply get_entry|]); intros Hobj.
  - exfalso. pose proof (chars_scalar s 0) as Hs.
    rewrite Forall_forall in Hs. specialize (Hs _ Hin). simpl in Hs. congruence.
  - pose proof (wf_entry _ _ _ Hwf Hin) as Hcv.
    cbn [entries] in Hin. apply In_indexed in Hin. destruct Hin as [i [_ Hi]].
    apply nth_error_In in Hi. rewrite Forall_forall in IH.
    apply IH; auto using is_object_truthy.
  - pose proof (wf_entry _ _ _ Hwf Hin) as Hcv.
    rewrite Forall_forall in IH.
    apply (IH (k, cv) Hin); auto using is_object_truthy.
Qed.

(** When every property of [current] has the same value in [previous],
    nothing is recorded. *)
Lemma detectChanges_agree previous current currentPath :
  falsy previous = false -> wf_value current = true ->
  (forall k cv, In (k, cv) (entries current) -> get previous k = Some cv) ->
  diff previous current currentPath = VObj [].
Proof.
  intros Htruthy Hwf Hagree. rewrite detectChanges_eq, Htruthy. f_equal.
  apply loop_unchanged. intros k cv Hin.
  apply change_same; [auto|]. intros Hobj.
  apply detectChanges_self; [eapply wf_entry; eassumption|].
  now apply is_object_truthy.
Qed.

(** The property of the result under a key. *)
Lemma detectChanges_get previous current currentPath k :
  falsy previous = false -> wf_value current = true ->
  get (diff previous current currentPath) k =
  match lookup k (entries current) with
  | Some cv => change (fun pv p => diff pv cv p) previous currentPath k cv
  | None => None
  end.
Proof.
  intros Htruthy Hwf. rewrite detectChanges_eq, Htruthy. cbn [get].
  rewrite loop_lookup by (apply (wf_keys_NoDup _ Hwf)).
  destruct (lookup k (entries current)) as [cv|]; [|reflexivity].
  now destruct (change _ previous currentPath k cv).
Qed.

Lemma detectChanges_keys previous current currentPath k :
  In k (keys (diff previous current currentPath)) -> In k (keys current).
Proof.
  rewrite detectChanges_eq. destruct (falsy previous); [trivial|].
  unfold keys at 1. cbn [entries]. intros H.
  apply loop_keys in H. destruct H as [[]|H]. exact H.
Qed.

End Loop.

(** A property that holds an object is an enumerated property. *)
Lemma get_object_entry (v : Value) (k : string) (x : Value) :
  get v k = Some x -> is_object (Some x) = true -> In (k, x) (entries v).
Proof.
  destruct v as [| | | s | items | props]; simpl; try discriminate.
  - destruct (String.eqb k "length"); [intros [= <-]; discriminate|].
    destruct (array_index k) as [i|] eqn:E; [|discriminate].
    intros H _. apply array_index_inv in E. subst k.
    apply In_indexed. now exists i.
  - destruct (String.eqb k "length"); [intros [= <-]; discriminate|].
    destruct (array_index k) as [i|] eqn:E; [|discriminate].
    intros H _. apply array_index_inv in E. subst k.
    apply In_indexed. now exists i.
  - intros H _. now apply lookup_In.
Qed.

(** When the objects under a key agree property by property, nothing is
    reported under the key. *)
Lemma agreeing_objects_not_reported Number_toString config P C currentPath k pv cv :
  wf_value C = true ->
  get P k = Some pv -> get C k = Some cv ->
  is_object (Some pv) = true -> is_object (Some cv) = true ->
  (forall k' v, In (k', v) (entries cv) -> get pv k' = Some v) ->
  get (detectChanges Number_toString config P C currentPath) k = None.
Proof.
  intros HwfC HP HC Hpv Hcv Hagree.
  rewrite detectChanges_get;
    [|eapply get_Some_truthy_object; eassumption | assumption].
  rewrite (In_lookup k (entries C) cv (wf_keys_NoDup C HwfC)
             (get_object_entry C k HC Hcv)).
  unfold change_of.
  destruct (includes (ignoredKeys config) k); [reflexivity|].
  destruct (shouldIgnorePath config (propertyPath currentPath k)); [reflexivity|].
  rewrite HP, Hcv, Hpv. cbn [andb]. cbv zeta.
  rewrite detectChanges_agree; auto using is_object_truthy.
  exact (get_wf C k HwfC HC).
Qed.

Lemma get_None_keys (v : Value) (k : string) :
  get v k = None -> ~ In k (keys v).
Proof.
  unfold keys. intros H Hin. apply in_map_iff in Hin.
  destruct Hin as [[k' x] [E Hin]]. simpl in E. subst k'.
  destruct v as [| | | s | items | props]; simpl in Hin; try contradiction.
  - apply In_indexed in Hin. destruct Hin as [i [E Hi]].
    cbn [Nat.add] in E. subst k. rewrite get_string_index in H. congruence.
  - apply In_indexed in Hin. destruct Hin as [i [E Hi]].
    cbn [Nat.add] in E. subst k. rewrite get_array_index in H. congruence.
  - simpl in H. apply lookup_None in H. apply H.
    change k with (fst (k, x)). now apply in_map.
Qed.

Lemma walk_undefined (keys : list string) : walk undefined keys = undefined.
Proof. destruct keys; reflexivity. Qed.

Lemma walk_cons (v : Value) (key : string) (rest : list string) :
  walk (Some v) (key :: rest) =
  if is_object (Some v) then walk (get v key) rest else undefined.
Proof. destruct v; reflexivity. Qed.

Lemma walk_app (current : any) (before after : list string) :
  walk current (before ++ after)%list = walk (walk current before) after.
Proof.
  revert current. induction before as [|key before IH]; intros current.
  - reflexivity.
  - rewrite <- app_comm_cons. destruct current as [v|].
    + rewrite !walk_cons. destruct (is_object (Some v)).
      * apply IH.
      * now rewrite walk_undefined.
    + now rewrite !walk_undefined.
Qed.

Lemma Permutation_lookup (ps cs : list (string * Value)) (k : string) (v : Value) :
  NoDup (map fst ps) -> Permutation ps cs -> In (k, v) cs ->
  lookup k ps = Some v.
Proof.
  intros Hnd Hperm Hin. apply In_lookup; [assumption|].
  eapply Permutation_in; [apply Permutation_sym|]; eassumption.
Qed.

(** Two objects with the same properties in any order: nothing is reported
    under their key. *)
Lemma reordered_not_reported Number_toString config P C currentPath k ps cs :
  wf_value P = true -> wf_value C = true ->
  get P k = Some (VObj ps) -> get C k = Some (VObj cs) ->
  Permutation ps cs ->
  get (detectChanges Number_toString config P C currentPath) k = None.
Proof.
  intros HwfP HwfC HP HC Hperm.
  apply (agreeing_objects_not_reported Number_toString config P C currentPath
           k HwfC HP HC eq_refl eq_refl).
  intros k' v Hin. cbn [get entries] in *.
  apply (Permutation_lookup (ps := ps) (cs := cs)); try assumption.
  apply (wf_keys_NoDup (VObj ps)). exact (get_wf P k HwfP HP).
Qed.

(** ** The reference scenarios, evaluated *)

Section Scenarios.

Let diff := detectChanges Sample.Number_toString.

(** The second message of the publisher against the first. *)
Example scenario_updated :
  diff Sample.no_rules Sample.initialMessage Sample.updatedMessage ""
  = VObj [("temperature", VNum 23.5); ("device", VObj [("battery", VNum 97)])].
Proof. reflexivity. Qed.

(** The third against the second: the unchanged [temperature] and [device]
    are absent. *)
Example scenario_final :
  diff Sample.no_rules Sample.updatedMessage Sample.finalMessage ""
  = VObj [("humidity", VNum 47); ("status", VStr "warning")].
Proof. reflexivity. Qed.

(** An ignored key is skipped. *)
Example scenario_ignored_key :
  diff Sample.temperature_rule
    (VObj [("temperature", VNum 1); ("humidity", VNum 2)])
    (VObj [("temperature", VNum 5); ("humidity", VNum 9)]) ""
  = VObj [("humidity", VNum 9)].
Proof. reflexivity. Qed.

(** With the rule [device.battery], a change below [device.battery] is
    suppressed together with its parents, a change of [backup.battery] is
    reported. *)
Example scenario_ignored_path :
  diff Sample.battery_rule
    (VObj [("device", VObj [("battery", VObj [("level", VNum 98)])]);
           ("backup", VObj [("battery", VNum 50)])])
    (VObj [("device", VObj [("battery", VObj [("level", VNum 97)])]);
           ("backup", VObj [("battery", VNum 49)])]) ""
  = VObj [("backup", VObj [("battery", VNum 49)])].
Proof. reflexivity. Qed.

(** A removed key is not reported. *)
Example scenario_deleted_key :
  diff Sample.no_rules
    (VObj [("a", VNum 1); ("b", VNum 2)]) (VObj [("a", VNum 1)]) ""
  = VObj [].
Proof. reflexivity. Qed.

(** A sequence is compared position by position, and the result is a
    mapping of the changed positions. *)
Example scenario_sequence :
  diff Sample.no_rules
    (VObj [("a", VArr [VNum 10; VNum 20; VNum 30])])
    (VObj [("a", VArr [VNum 10; VNum 21])]) ""
  = VObj [("a", VObj [("1", VNum 21)])].
Proof. reflexivity. Qed.

(** The three messages of the publisher through the handler: the first
    seeds the baseline and logs nothing, the next two log their changes. *)
Example scenario_run :
  let raws := map Sample.text
                [Sample.initialMessage; Sample.updatedMessage; Sample.finalMessage] in
  let final := run Sample.Number_toString Sample.JSON_parse Sample.no_rules
                 initial_state raws in
  previousMessage final = Sample.finalMessage
  /\ map message (log final)
     = [Sample.text (VObj [("temperature", VNum 23.5);
                           ("device", VObj [("battery", VNum 97)])]);
        Sample.text (VObj [("humidity", VNum 47); ("status", VStr "warning")])].
Proof. split; reflexivity. Qed.

(** A first message that is falsy but not [null] (here the number [0])
    stays the baseline when [null] follows: the comparison returns [null],
    [Object.keys] throws, and the [catch] block leaves the state alone. *)
Example scenario_null_after_zero :
  snd (on_message Sample.Number_toString (fun _ => Some VNull) Sample.no_rules
         {| previousMessage := VNum 0; log := [] |} "t" "null")
  = Failed VNull.
Proof. reflexivity. Qed.

(** The filter on [print.command]: a message without that path and a
    message with another command are turned away, a [push_status] message
    is let through. *)
Example scenario_gate :
  rejects Sample.push_status_only Sample.initialMessage = true
  /\ rejects Sample.push_status_only Sample.otherCommand = true
  /\ rejects Sample.push_status_only Sample.pushStatus = false
  /\ rejects Sample.no_rules Sample.otherCommand = false.
Proof. repeat split; reflexivity. Qed.

End Scenarios.

(** ** The properties of the design document *)

(** C1. Self-diff is empty: for every mapping [X], comparing [X] with itself
    under empty ignore sets gives the empty mapping, so that no change is
    reported at any depth. *)
Theorem self_diff_is_empty (Number_toString : float -> string) (config : Config)
  (props : list (string * Value)) :
  ignoredKeys config = [] -> ignoredPaths config = [] ->
  wf_value (VObj props) = true ->
  detectChanges Number_toString config (VObj props) (VObj props) "" = VObj [].
Proof.
  intros _ _ Hwf. now apply detectChanges_self.
Qed.

Lemma self_diff_is_empty_witness :
  detectChanges Sample.Number_toString Sample.no_rules
    Sample.initialMessage Sample.initialMessage "" = VObj [].
Proof.
  apply (self_diff_is_empty Sample.Number_toString Sample.no_rules);
    reflexivity.
Defined.

(** C2. Seed case: when there is no previous message ([previousMessage] is
    [null]), the result is the current value itself, whole, whatever the
    ignore rules and the path are. *)
Theorem seed_returns_current (Number_toString : float -> string)
  (config : Config) (X : Value) (currentPath : string) :
  detectChanges Number_toString config VNull X currentPath = X.
Proof.
  now rewrite detectChanges_eq.
Qed.

(** C3. Deletions are invisible: every key of the result is a key of the
    current value, and a key that only the previous value has is never in
    the result. *)
Theorem reported_keys_are_current_keys (Number_toString : float -> string)
  (config : Config) (P C : Value) (currentPath k : string) :
  (In k (keys (detectChanges Number_toString config P C currentPath)) ->
   In k (keys C))
  /\ (In k (keys P) -> ~ In k (keys C) ->
      ~ In k (keys (detectChanges Number_toString config P C currentPath))).
Proof.
  split.
  - apply detectChanges_keys.
  - intros _ HC H. apply HC. revert H. apply detectChanges_keys.
Qed.

Lemma reported_keys_are_current_keys_witness :
  let P := VObj [("a", VNum 1); ("b", VNum 2)] in
  let C := VObj [("a", VNum 3)] in
  In "b" (keys P) /\ ~ In "b" (keys C)
  /\ ~ In "b" (keys (detectChanges Sample.Number_toString Sample.no_rules P C ""))
  /\ (In "a" (keys (detectChanges Sample.Number_toString Sample.no_rules P C ""))
      -> In "a" (keys C)).
Proof.
  cbv zeta.
  pose proof (reported_keys_are_current_keys Sample.Number_toString
                Sample.no_rules (VObj [("a", VNum 1); ("b", VNum 2)])
                (VObj [("a", VNum 3)]) "") as H.
  assert (Hb : ~ In "b" (keys (VObj [("a", VNum 3)])))
    by (simpl; intros [E|[]]; discriminate E).
  split; [simpl; tauto|]. split; [exact Hb|]. split.
  - apply (proj2 (H "b")); [simpl; tauto | exact Hb].
  - exact (proj1 (H "a")).
Defined.

(** C4. A path is suppressed exactly when it is an ignored path or begins
    with an ignored path followed by a dot; with the one rule
    [device.battery], the path [device.battery.level] is suppressed and
    [backup.battery] is not. *)
Theorem shouldIgnorePath_iff (config : Config) (p : string) :
  (shouldIgnorePath config p = true <->
   exists r, In r (ignoredPaths config) /\
             (p = r \/ exists rest, p = r ++ "." ++ rest))
  /\ shouldIgnorePath Sample.battery_rule "device.battery.level" = true
  /\ shouldIgnorePath Sample.battery_rule "backup.battery" = false.
Proof.
  split; [|split; reflexivity].
  unfold shouldIgnorePath, some. rewrite existsb_exists.
  split; intros [r [Hin H]]; exists r; (split; [assumption|]); cbv beta in *.
  - destruct (String.eqb_spec r p) as [->|Hne]; [now left|].
    destruct (startsWith p (r ++ ".")) eqn:E; [|discriminate].
    apply startsWith_app in E. destruct E as [rest ->]. right. exists rest.
    apply append_assoc.
  - destruct H as [->|[rest ->]]; [now rewrite String.eqb_refl|].
    destruct (String.eqb r (r ++ "." ++ rest)); [reflexivity|].
    replace (startsWith (r ++ "." ++ rest) (r ++ ".")) with true; [reflexivity|].
    symmetry. apply startsWith_app. exists rest.
    symmetry. apply append_assoc.
Qed.

(** C5. No empty object leaks: when the previous and the current value
    both hold an object under a key, the result holds under that key
    nothing when the nested comparison is empty, and otherwise nothing but
    the non-empty nested result. *)
Theorem nested_result_only_if_nonempty (Number_toString : float -> string)
  (config : Config) (P C : Value) (currentPath k : string) (pv cv : Value) :
  wf_value C = true ->
  get P k = Some pv -> get C k = Some cv ->
  is_object (Some pv) = true -> is_object (Some cv) = true ->
  let nested :=
    detectChanges Number_toString config pv cv (propertyPath currentPath k) in
  let result := detectChanges Number_toString config P C currentPath in
  (keys nested = [] -> get result k = None /\ ~ In k (keys result))
  /\ (forall v, get result k = Some v -> v = nested /\ keys nested <> []).
Proof.
  intros HwfC HP HC Hpv Hcv nested result.
  assert (E : get result k =
              change_of Number_toString config
                (fun pv' p => detectChanges Number_toString config pv' cv p)
                P currentPath k cv).
  { unfold result. rewrite detectChanges_get;
      [|eapply get_Some_truthy_object; eassumption | assumption].
    now rewrite (In_lookup k (entries C) cv (wf_keys_NoDup C HwfC)
                   (get_object_entry C k HC Hcv)). }
  unfold change_of in E. rewrite HP, Hcv, Hpv in E.
  cbn [andb] in E. cbv zeta in E. fold nested in E.
  split.
  - intros Hempty. rewrite Hempty in E.
    assert (Hnone : get result k = None).
    { rewrite E.
      destruct (includes (ignoredKeys config) k); [reflexivity|].
      now destruct (shouldIgnorePath config (propertyPath currentPath k)). }
    split; [assumption | now apply get_None_keys].
  - intros v Hv. rewrite Hv in E.
    destruct (includes (ignoredKeys config) k); [discriminate|].
    destruct (shouldIgnorePath config (propertyPath currentPath k));
      [discriminate|].
    destruct (keys nested) as [|k0 ks]; [discriminate|].
    injection E as ->. split; [reflexivity | discriminate].
Qed.

Lemma nested_result_only_if_nonempty_witness :
  let nested :=
    detectChanges Sample.Number_toString Sample.battery_rule
      (Sample.device 98) (Sample.device 97) (propertyPath "" "device") in
  let result :=
    detectChanges Sample.Number_toString Sample.battery_rule
      Sample.initialMessage Sample.updatedMessage "" in
  (keys nested = [] -> get result "device" = None /\ ~ In "device" (keys result))
  /\ (forall v, get result "device" = Some v -> v = nested /\ keys nested <> []).
Proof.
  apply (nested_result_only_if_nonempty Sample.Number_toString
           Sample.battery_rule Sample.initialMessage Sample.updatedMessage
           "" "device" (pv := Sample.device 98) (cv := Sample.device 97));
    reflexivity.
Defined.

(** C6. The admission filter: with a condition [F], a message is admitted
    when [F.path] is empty, and otherwise exactly when the value [F.path]
    resolves to in the message is strictly equal to [F.value]; a message
    that is not admitted is not compared and leaves the state as it was,
    and an admitted one is compared with the baseline. *)
Theorem gate_admits_iff_value_matches (Number_toString : float -> string)
  (JSON_parse : string -> option Value) (config : Config)
  (F : FilterCondition) (st : State) (topic raw : string) (M : Value) :
  condition (messageFiltering config) = Some F ->
  JSON_parse raw = Some M ->
  let admitted := negb (rejects config M) in
  let handled := on_message Number_toString JSON_parse config st topic raw in
  (path F = "" -> admitted = true)
  /\ (path F <> "" ->
      (admitted = true <->
       strict_equals (getValueByPath M (path F)) (value F) = true))
  /\ (admitted = false -> handled = (st, NotAdmitted))
  /\ (admitted = true ->
      let changes :=
        detectChanges Number_toString config (previousMessage st) M "" in
      snd handled = Compared changes \/ snd handled = Failed changes).
Proof.
  intros HF Hparse admitted handled.
  unfold admitted, handled, on_message, rejects. rewrite HF, Hparse.
  repeat split.
  - intros ->. reflexivity.
  - destruct (path F) as [|c p]; [congruence|]. cbn [truthy_string andb].
    now rewrite negb_involutive.
  - destruct (path F) as [|c p]; [congruence|]. cbn [truthy_string andb].
    now rewrite negb_involutive.
  - rewrite negb_false_iff. intros ->. reflexivity.
  - rewrite negb_true_iff. intros ->. cbv zeta.
    destruct (negb (is_nullish (Some (previousMessage st)))); [|now left].
    destruct (is_null _); [now right|].
    destruct (Nat.ltb 0 _); now left.
Qed.

Lemma gate_admits_iff_value_matches_witness :
  let st := {| previousMessage := Sample.pushStatus; log := [] |} in
  let raw := Sample.text Sample.otherCommand in
  Sample.JSON_parse raw = Some Sample.otherCommand
  /\ negb (rejects Sample.push_status_only Sample.otherCommand) = false
  /\ on_message Sample.Number_toString Sample.JSON_parse
       Sample.push_status_only st "printer" raw = (st, NotAdmitted).
Proof.
  cbv zeta. split; [reflexivity|]. split; [reflexivity|].
  apply (gate_admits_iff_value_matches Sample.Number_toString
           Sample.JSON_parse Sample.push_status_only
           (F := {| path := "print.command"; value := Some (VStr "push_status") |})
           {| previousMessage := Sample.pushStatus; log := [] |} "printer"
           (Sample.text Sample.otherCommand) (M := Sample.otherCommand));
    reflexivity.
Defined.

(** C7, as the code has it. Resolution returns absent when it comes to
    [null], to a scalar or to nothing with a segment still to read.  A
    sequence is read like a mapping: the next segment is one of its
    properties, the decimal text of a position giving the element there.  On
    a mapping every segment, numeric-looking or not, is a key. *)
Theorem resolve_stops_at_scalars_only (V : Value) (p : string) (w : any)
  (key : string) (rest : list string) :
  p <> "" -> reaches V p w key rest ->
  match w with
  | None | Some VNull | Some (VBool _) | Some (VNum _) | Some (VStr _) =>
      getValueByPath V p = undefined
  | Some (VArr items) =>
      getValueByPath V p = walk (get (VArr items) key) rest
      /\ (forall i, key = index_key i ->
          getValueByPath V p = walk (nth_error items i) rest)
  | Some (VObj props) =>
      getValueByPath V p = walk (lookup key props) rest
  end.
Proof.
  intros Hp [before [Hsplit Hwalk]].
  assert (E : getValueByPath V p = walk w (key :: rest)).
  { unfold getValueByPath. destruct p; [congruence|]. cbn [truthy_string negb].
    now rewrite Hsplit, walk_app, Hwalk. }
  rewrite E. destruct w as [[| b | n | s | items | props]|]; try reflexivity.
  split; [reflexivity|]. intros i ->.
  now rewrite walk_cons, get_array_index.
Qed.

Lemma resolve_stops_at_scalars_only_witness :
  getValueByPath Sample.withSequence "a.1" = walk (Some (VNum 20)) []
  /\ getValueByPath Sample.initialMessage "status.kind" = undefined.
Proof.
  split.
  - apply (resolve_stops_at_scalars_only (V := Sample.withSequence) (p := "a.1")
             (w := Some (VArr [VNum 10; VNum 20])) (key := "1") (rest := [])).
    + discriminate.
    + exists ["a"]. split; reflexivity.
  - apply (resolve_stops_at_scalars_only (V := Sample.initialMessage)
             (p := "status.kind") (w := Some (VStr "normal")) (key := "kind")
             (rest := [])).
    + discriminate.
    + exists ["status"]. split; reflexivity.
Defined.

(** The resolver does index into a sequence: in [{a: [10, 20]}] the path
    [a.0] resolves to [10], where the statement of the design document asks
    for absent. *)
Lemma sequence_is_indexed :
  getValueByPath Sample.withSequence "a.0" = Some (VNum 10)
  /\ ~ never_indexes_sequences.
Proof.
  split; [reflexivity|]. intros H.
  specialize (H Sample.withSequence "a.0" (VArr [VNum 10; VNum 20]) "0" []).
  discriminate H.
  - discriminate.
  - exists ["a"]. split; reflexivity.
  - discriminate.
Qed.

(** C8, as the code has it. When the previous and the current value hold,
    under a key, mappings with the same key/value pairs in a different
    order, the two are not compared by their serialisation: the comparison
    descends into them, finds every property unchanged, and reports nothing
    under the key. *)
Theorem reordered_mapping_is_not_reported (Number_toString : float -> string)
  (config : Config) (P C : Value) (currentPath k : string)
  (ps cs : list (string * Value)) :
  wf_value P = true -> wf_value C = true ->
  get P k = Some (VObj ps) -> get C k = Some (VObj cs) ->
  Permutation ps cs -> ps <> cs ->
  get (detectChanges Number_toString config P C currentPath) k = None
  /\ ~ In k (keys (detectChanges Number_toString config P C currentPath)).
Proof.
  intros HwfP HwfC HP HC Hperm _.
  assert (H : get (detectChanges Number_toString config P C currentPath) k = None)
    by (eapply reordered_not_reported; eassumption).
  split; [assumption | now apply get_None_keys].
Qed.

Lemma reordered_mapping_is_not_reported_witness :
  let P := VObj [("k", VObj [("a", VStr "x"); ("b", VStr "y")])] in
  let C := VObj [("k", VObj [("b", VStr "y"); ("a", VStr "x")])] in
  get (detectChanges Sample.Number_toString Sample.no_rules P C "") "k" = None
  /\ ~ In "k" (keys (detectChanges Sample.Number_toString Sample.no_rules P C "")).
Proof.
  cbv zeta.
  apply (reordered_mapping_is_not_reported Sample.Number_toString Sample.no_rules
           (VObj [("k", VObj [("a", VStr "x"); ("b", VStr "y")])])
           (VObj [("k", VObj [("b", VStr "y"); ("a", VStr "x")])])
           "" "k"
           (ps := [("a", VStr "x"); ("b", VStr "y")])
           (cs := [("b", VStr "y"); ("a", VStr "x")]));
    try reflexivity.
  - apply perm_swap.
  - discriminate.
Defined.

(** Two mappings that differ only in the order of their keys have
    different serialisations, and still nothing is reported: no previous and
    current value make the comparison report the reordered mapping. *)
Lemma reordered_mapping_counterexample :
  let pv := VObj [("a", VStr "x"); ("b", VStr "y")] in
  let cv := VObj [("b", VStr "y"); ("a", VStr "x")] in
  JSON_stringify Sample.Number_toString pv <> JSON_stringify Sample.Number_toString cv
  /\ detectChanges Sample.Number_toString Sample.no_rules
       (VObj [("k", pv)]) (VObj [("k", cv)]) "" = VObj []
  /\ (forall Number_toString config,
        ~ reordered_mapping_reported Number_toString config).
Proof.
  cbv zeta. split; [discriminate|]. split; [reflexivity|].
  intros Number_toString config [P [C [k [ps [cs H]]]]].
  destruct H as [HwfP [HwfC [HP [HC [Hperm [_ Hget]]]]]].
  rewrite (reordered_not_reported Number_toString config P C "" k
             HwfP HwfC HP HC Hperm) in Hget.
  discriminate.
Qed.

(** The state after a message depends on the earlier messages through the
    baseline only. *)
Lemma on_message_baseline Number_toString JSON_parse config st1 st2 topic raw :
  previousMessage st1 = previousMessage st2 ->
  previousMessage (fst (on_message Number_toString JSON_parse config st1 topic raw))
  = previousMessage (fst (on_message Number_toString JSON_parse config st2 topic raw))
  /\ snd (on_message Number_toString JSON_parse config st1 topic raw)
     = snd (on_message Number_toString JSON_parse config st2 topic raw).
Proof.
  intros E. unfold on_message. rewrite E.
  destruct (JSON_parse raw) as [jsonMessage|]; [|split; [exact E | reflexivity]].
  destruct (rejects config jsonMessage); [split; [exact E | reflexivity]|].
  cbv zeta.
  destruct (negb (is_nullish (Some (previousMessage st2))));
    [|split; reflexivity].
  destruct (is_null _); [split; [exact E | reflexivity]|].
  destruct (Nat.ltb 0 _); split; reflexivity.
Qed.

Lemma run_baseline Number_toString JSON_parse config raws st1 st2 :
  previousMessage st1 = previousMessage st2 ->
  previousMessage (run Number_toString JSON_parse config st1 raws)
  = previousMessage (run Number_toString JSON_parse config st2 raws).
Proof.
  revert st1 st2. induction raws as [|raw raws IH]; intros st1 st2 E.
  - exact E.
  - unfold run in *. cbn [fold_left]. apply IH.
    now apply on_message_baseline.
Qed.

(** C9. A payload that does not decode is caught: the comparison is not
    run on it, the baseline is what it was, and every later message is
    handled as if the malformed one had not arrived. *)
Theorem malformed_payload_keeps_baseline (Number_toString : float -> string)
  (JSON_parse : string -> option Value) (config : Config)
  (st : State) (topic raw : string) :
  JSON_parse raw = None ->
  let handled := on_message Number_toString JSON_parse config st topic raw in
  handled = (caught st raw, Malformed)
  /\ previousMessage (fst handled) = previousMessage st
  /\ (forall topic' raw',
        snd (on_message Number_toString JSON_parse config (fst handled) topic' raw')
        = snd (on_message Number_toString JSON_parse config st topic' raw'))
  /\ (forall raws,
        previousMessage (run Number_toString JSON_parse config (fst handled) raws)
        = previousMessage (run Number_toString JSON_parse config st raws)).
Proof.
  intros Hparse handled.
  assert (E : handled = (caught st raw, Malformed))
    by (unfold handled, on_message; now rewrite Hparse).
  rewrite E. cbn [fst]. repeat split.
  - intros topic' raw'. now apply on_message_baseline.
  - intros raws. now apply run_baseline.
Qed.

Lemma malformed_payload_keeps_baseline_witness :
  let st := {| previousMessage := Sample.initialMessage; log := [] |} in
  let handled :=
    on_message Sample.Number_toString Sample.JSON_parse Sample.no_rules
      st "sensors" "{temperature" in
  Sample.JSON_parse "{temperature" = None
  /\ handled = (caught st "{temperature", Malformed)
  /\ previousMessage (fst handled) = Sample.initialMessage
  /\ snd (on_message Sample.Number_toString Sample.JSON_parse Sample.no_rules
            (fst handled) "sensors" (Sample.text Sample.updatedMessage))
     = Compared (VObj [("temperature", VNum 23.5);
                       ("device", VObj [("battery", VNum 97)])]).
Proof.
  cbv zeta. split; [reflexivity|].
  pose proof (malformed_payload_keeps_baseline Sample.Number_toString
                Sample.JSON_parse Sample.no_rules
                {| previousMessage := Sample.initialMessage; log := [] |}
                "sensors" "{temperature" eq_refl) as H.
  cbv zeta in H. destruct H as [H1 [H2 [H3 _]]].
  split; [exact H1|]. split; [exact H2|].
  rewrite H3. reflexivity.
Defined.

(** C10. A sequence and the mapping of its positions to its elements are
    not told apart: when the previous value holds [[v0, ..., vn]] under a
    key and the current one [{"0": v0, ..., "n": vn}], or the other way
    round, nothing is reported under the key. *)
Theorem sequence_and_index_mapping_agree (Number_toString : float -> string)
  (config : Config) (P C : Value) (currentPath k : string) (vs : list Value) :
  wf_value C = true ->
  (get P k = Some (VArr vs) /\ get C k = Some (VObj (indexed 0 vs)))
  \/ (get P k = Some (VObj (indexed 0 vs)) /\ get C k = Some (VArr vs)) ->
  get (detectChanges Number_toString config P C currentPath) k = None
  /\ ~ In k (keys (detectChanges Number_toString config P C currentPath)).
Proof.
  intros HwfC H.
  assert (Hnone : get (detectChanges Number_toString config P C currentPath) k = None).
  { destruct H as [[HP HC]|[HP HC]].
    - apply (agreeing_objects_not_reported Number_toString config P C
               currentPath k HwfC HP HC eq_refl eq_refl).
      intros k' v Hin. cbn [entries] in Hin. apply In_indexed in Hin.
      destruct Hin as [i [E Hi]]. cbn [Nat.add] in E. subst k'.
      now rewrite get_array_index.
    - apply (agreeing_objects_not_reported Number_toString config P C
               currentPath k HwfC HP HC eq_refl eq_refl).
      intros k' v Hin. cbn [entries get] in *.
      apply In_lookup; [apply indexed_keys_NoDup | assumption]. }
  split; [assumption | now apply get_None_keys].
Qed.

Lemma sequence_and_index_mapping_agree_witness :
  let C := VObj [("a", VObj [("0", VNum 10); ("1", VNum 20)])] in
  get (detectChanges Sample.Number_toString Sample.no_rules
         Sample.withSequence C "") "a" = None
  /\ ~ In "a" (keys (detectChanges Sample.Number_toString Sample.no_rules
                       Sample.withSequence C "")).
Proof.
  cbv zeta.
  apply (sequence_and_index_mapping_agree Sample.Number_toString Sample.no_rules
           Sample.withSequence
           (VObj [("a", VObj [("0", VNum 10); ("1", VNum 20)])]) "" "a"
           (vs := [VNum 10; VNum 20])).
  - reflexivity.
  - left. split; reflexivity.
Defined.

(** ** Further properties of the comparison *)

(** Induction on a value through the properties that hold an object. *)
Lemma Value_object_entries_ind (Q : Value -> Prop) :
  (forall v,
     (forall k x, In (k, x) (entries v) -> is_object (Some x) = true -> Q x) ->
     Q v) ->
  forall v, Q v.
Proof.
  intros H. induction v as [| b | n | s | items IH | props IH] using JS.Value_ind;
    apply H; intros k x Hin Hobj; try contradiction.
  - exfalso. pose proof (chars_scalar s 0) as Hs.
    rewrite Forall_forall in Hs. specialize (Hs _ Hin). simpl in Hs. congruence.
  - cbn [entries] in Hin. apply In_indexed in Hin. destruct Hin as [i [_ Hi]].
    apply nth_error_In in Hi. rewrite Forall_forall in IH. auto.
  - rewrite Forall_forall in IH. apply (IH (k, x) Hin).
Qed.

Lemma keys_set_iff (props : list (string * Value)) (key k' : string) (v : Value) :
  In k' (map fst (set props key v)) <-> k' = key \/ In k' (map fst props).
Proof.
  induction props as [|[k w] rest IH]; simpl.
  - intuition.
  - destruct (String.eqb_spec key k) as [->|Hk]; simpl.
    + intuition.
    + rewrite IH. intuition.
Qed.

Lemma keys_set_eq (props : list (string * Value)) (key : string) (v : Value) :
  map fst (set props key v) =
  if includes (map fst props) key then map fst props
  else (map fst props ++ [key])%list.
Proof.
  unfold includes. induction props as [|[k w] rest IH]; simpl; [reflexivity|].
  destruct (String.eqb_spec key k) as [->|Hk]; simpl; [reflexivity|].
  rewrite IH. now destruct (existsb (String.eqb key) (map fst rest)).
Qed.

Section Comparison.

Variable Number_toString : float -> string.

Local Abbreviation diff := (detectChanges Number_toString).
Local Abbreviation change := (change_of Number_toString).
Local Abbreviation loop := (compare_all Number_toString).

(** The keys of the result of the loop: those it started with and the keys
    of [current] for which a change is recorded. *)
Lemma loop_keys_iff config previous currentPath es changes k :
  In k (map fst (loop config previous currentPath es changes)) <->
  In k (map fst changes)
  \/ exists cv, In (k, cv) es
       /\ change config (fun pv p => diff config pv cv p) previous currentPath k cv
          <> None.
Proof.
  revert changes. induction es as [|[k1 cv1] es IH]; intros changes.
  - simpl. split; [tauto | intros [H|[cv [[] _]]]; exact H].
  - rewrite loop_cons, IH. cbn [In].
    destruct (change config (fun pv p => diff config pv cv1 p)
                previous currentPath k1 cv1) as [x|] eqn:E.
    + rewrite keys_set_iff. split.
      * intros [[->|H]|[cv [Hin Hc]]]; [right|tauto|right].
        -- exists cv1. split; [now left | congruence].
        -- exists cv. tauto.
      * intros [H|[cv [[[= <- <-]|Hin] Hc]]]; [tauto|tauto|].
        right. exists cv. tauto.
    + split.
      * intros [H|[cv [Hin Hc]]]; [tauto|]. right. exists cv. tauto.
      * intros [H|[cv [[[= <- <-]|Hin] Hc]]]; [tauto|congruence|].
        right. exists cv. tauto.
Qed.

Lemma detectChanges_keys_iff config previous current currentPath k :
  falsy previous = false ->
  In k (keys (diff config previous current currentPath)) <->
  exists cv, In (k, cv) (entries current)
    /\ change config (fun pv p => diff config pv cv p) previous currentPath k cv
       <> None.
Proof.
  intros Htruthy. rewrite detectChanges_eq, Htruthy.
  unfold keys at 1. cbn [entries]. rewrite loop_keys_iff. cbn [map In].
  tauto.
Qed.

(** The loops under two configurations, or at two paths, agree when their
    bodies agree on every property. *)
Lemma loop_ext config1 config2 previous path1 path2 es changes :
  (forall k cv, In (k, cv) es ->
     change config1 (fun pv p => diff config1 pv cv p) previous path1 k cv
     = change config2 (fun pv p => diff config2 pv cv p) previous path2 k cv) ->
  loop config1 previous path1 es changes = loop config2 previous path2 es changes.
Proof.
  revert changes. induction es as [|[k cv] es IH]; intros changes H.
  - reflexivity.
  - rewrite !loop_cons, (H k cv (or_introl eq_refl)).
    apply IH. intros k' cv' Hin. apply H. now right.
Qed.

End Comparison.

Lemma distinct_app_new (ks : list string) (k : string) :
  distinct ks = true -> includes ks k = false -> distinct (ks ++ [k]) = true.
Proof.
  rewrite !distinct_NoDup. intros Hnd Hk.
  apply NoDup_app_remove_l with (l := []). simpl.
  apply Permutation_NoDup with (l := k :: ks).
  - apply Permutation_cons_append.
  - constructor; [|assumption]. intros Hin. apply includes_In in Hin. congruence.
Qed.

Lemma forallb_set (f : string * Value -> bool) props key v :
  forallb f props = true -> (forall k, f (k, v) = true) ->
  forallb f (set props key v) = true.
Proof.
  intros Hall Hv. induction props as [|[k w] rest IH]; simpl in *.
  - now rewrite Hv.
  - apply andb_true_iff in Hall. destruct Hall as [Hw Hrest].
    destruct (String.eqb key k); simpl.
    + now rewrite Hv, Hrest.
    + now rewrite Hw, IH.
Qed.

(** Assigning a well-formed value keeps an object well formed. *)
Lemma set_wf props key v :
  wf_value (VObj props) = true -> wf_value v = true ->
  wf_value (VObj (set props key v)) = true.
Proof.
  cbn [wf_value]. rewrite !andb_true_iff. intros [Hd Hall] Hv. split.
  - rewrite keys_set_eq. destruct (includes (map fst props) key) eqn:E.
    + assumption.
    + now apply distinct_app_new.
  - now apply forallb_set.
Qed.

Section Results.

Variable Number_toString : float -> string.

Local Abbreviation diff := (detectChanges Number_toString).
Local Abbreviation change := (change_of Number_toString).
Local Abbreviation loop := (compare_all Number_toString).

Lemma loop_wf config previous currentPath es changes :
  wf_value (VObj changes) = true ->
  (forall k cv x, In (k, cv) es ->
     change config (fun pv p => diff config pv cv p) previous currentPath k cv
     = Some x -> wf_value x = true) ->
  wf_value (VObj (loop config previous currentPath es changes)) = true.
Proof.
  revert changes. induction es as [|[k cv] es IH]; intros changes Hch H.
  - exact Hch.
  - rewrite loop_cons. apply IH.
    + destruct (change config _ previous currentPath k cv) as [x|] eqn:E;
        [|exact Hch].
      apply set_wf; [exact Hch|]. apply (H k cv x); [now left | exact E].
    + intros k' cv' x Hin. apply H. now right.
Qed.

(** The keys of the loop's result, in order: first those it started with,
    then the keys of [current] for which a change is recorded. *)
Lemma loop_keys_filter config previous currentPath es changes f :
  NoDup (map fst es) ->
  (forall k, In k (map fst es) -> ~ In k (map fst changes)) ->
  (forall k cv, In (k, cv) es ->
     f k = match change config (fun pv p => diff config pv cv p)
                   previous currentPath k cv with
           | Some _ => true
           | None => false
           end) ->
  map fst (loop config previous currentPath es changes)
  = (map fst changes ++ filter f (map fst es))%list.
Proof.
  revert changes. induction es as [|[k cv] es IH]; intros changes Hnd Hfresh Hf.
  - simpl. now rewrite app_nil_r.
  - inversion Hnd as [|? ? Hk Hes]; subst.
    rewrite loop_cons. cbn [map fst filter].
    rewrite (Hf k cv (or_introl eq_refl)).
    destruct (change config _ previous currentPath k cv) as [x|].
    + rewrite IH; [| assumption | | intros; apply Hf; now right].
      * rewrite keys_set_eq.
        replace (includes (map fst changes) k) with false.
        -- now rewrite <- app_assoc.
        -- symmetry. destruct (includes (map fst changes) k) eqn:E; [|reflexivity].
           apply includes_In in E. exfalso.
           apply (Hfresh k); [now left | exact E].
      * intros k' Hin Hin'. apply keys_set_iff in Hin'.
        destruct Hin' as [->|Hin']; [contradiction|].
        apply (Hfresh k'); [now right | exact Hin'].
    + apply IH; [assumption | | intros; apply Hf; now right].
      intros k' Hin. apply Hfresh. now right.
Qed.

End Results.

(** X1. A key the comparison reports is neither an ignored key nor at an
    ignored path. *)
Theorem reported_key_is_not_suppressed (Number_toString : float -> string)
  (config : Config) (P C : Value) (currentPath k : string) :
  falsy P = false ->
  In k (keys (detectChanges Number_toString config P C currentPath)) ->
  includes (ignoredKeys config) k = false
  /\ shouldIgnorePath config (propertyPath currentPath k) = false.
Proof.
  intros Htruthy Hin.
  apply detectChanges_keys_iff in Hin; [|assumption].
  destruct Hin as [cv [_ Hc]]. unfold change_of in Hc.
  destruct (includes (ignoredKeys config) k); [congruence|].
  destruct (shouldIgnorePath config (propertyPath currentPath k)); [congruence|].
  split; reflexivity.
Qed.

Lemma reported_key_is_not_suppressed_witness :
  includes (ignoredKeys Sample.battery_rule) "temperature" = false
  /\ shouldIgnorePath Sample.battery_rule (propertyPath "" "temperature") = false.
Proof.
  apply (reported_key_is_not_suppressed Sample.Number_toString
           Sample.battery_rule Sample.initialMessage Sample.updatedMessage "");
    [reflexivity | vm_compute; left; reflexivity].
Defined.



(** X3. Every value in the result is either the current value under that
    key, as it is, or the non-empty result of comparing the two objects
    under that key. *)
Theorem reported_value_shape (Number_toString : float -> string)
  (config : Config) (P C : Value) (currentPath k : string) (v : Value) :
  wf_value C = true -> falsy P = false ->
  get (detectChanges Number_toString config P C currentPath) k = Some v ->
  exists cv, In (k, cv) (entries C)
    /\ (v = cv
        \/ exists pv, get P k = Some pv
             /\ is_object (Some pv) = true /\ is_object (Some cv) = true
             /\ v = detectChanges Number_toString config pv cv
                      (propertyPath currentPath k)
             /\ keys v <> []).
Proof.
  intros HwfC Htruthy Hget.
  rewrite detectChanges_get in Hget by assumption.
  destruct (lookup k (entries C)) as [cv|] eqn:Hcv; [|discriminate].
  exists cv. split; [now apply lookup_In|].
  unfold change_of in Hget.
  destruct (includes (ignoredKeys config) k); [discriminate|].
  destruct (shouldIgnorePath config (propertyPath currentPath k)); [discriminate|].
  destruct (get P k) as [pv|]; [|left; congruence].
  destruct (is_object (Some cv)) eqn:Hc, (is_object (Some pv)) eqn:Hp;
    cbn [andb] in Hget;
    try (destruct (differ _ _); [left; congruence | discriminate]).
  cbv zeta in Hget.
  destruct (keys (detectChanges Number_toString config pv cv
                    (propertyPath currentPath k))) eqn:Hk; [discriminate|].
  injection Hget as <-. right. exists pv.
  split; [reflexivity|]. split; [exact Hp|]. split; [reflexivity|].
  split; [reflexivity|]. rewrite Hk. discriminate.
Qed.

Lemma reported_value_shape_witness :
  exists cv, In ("device", cv) (entries Sample.updatedMessage)
    /\ (VObj [("battery", VNum 97)] = cv
        \/ exists pv, get Sample.initialMessage "device" = Some pv
             /\ is_object (Some pv) = true /\ is_object (Some cv) = true
             /\ VObj [("battery", VNum 97)]
                = detectChanges Sample.Number_toString Sample.no_rules pv cv
                    (propertyPath "" "device")
             /\ keys (VObj [("battery", VNum 97)]) <> []).
Proof.
  apply (reported_value_shape Sample.Number_toString Sample.no_rules
           Sample.initialMessage Sample.updatedMessage "" "device");
    reflexivity.
Defined.

(** X4. The keys of the result are keys of [current] in the order [current]
    has them: the result never reorders, and never has more keys than
    [current]. *)
Theorem reported_keys_keep_order (Number_toString : float -> string)
  (config : Config) (P C : Value) (currentPath : string) :
  wf_value C = true -> falsy P = false ->
  let result := detectChanges Number_toString config P C currentPath in
  (exists f, keys result = filter f (keys C))
  /\ List.length (keys result) <= List.length (keys C).
Proof.
  intros HwfC Htruthy result.
  pose (f := fun k =>
              match lookup k (entries C) with
              | Some cv =>
                  match change_of Number_toString config
                          (fun pv p => detectChanges Number_toString config pv cv p)
                          P currentPath k cv with
                  | Some _ => true
                  | None => false
                  end
              | None => false
              end).
  assert (H : keys result = filter f (keys C)).
  { unfold result. rewrite detectChanges_eq, Htruthy.
    unfold keys at 1. cbn [entries].
    rewrite (loop_keys_filter Number_toString config P currentPath
               (entries C) [] f (wf_keys_NoDup C HwfC)); [reflexivity | auto |].
    intros k cv Hin. unfold f.
    now rewrite (In_lookup k (entries C) cv (wf_keys_NoDup C HwfC) Hin). }
  split; [now exists f|]. rewrite H. apply filter_length_le.
Qed.

Lemma reported_keys_keep_order_witness :
  let result :=
    detectChanges Sample.Number_toString Sample.no_rules
      Sample.initialMessage Sample.finalMessage "" in
  (exists f, keys result = filter f (keys Sample.finalMessage))
  /\ List.length (keys result) <= List.length (keys Sample.finalMessage).
Proof.
  apply (reported_keys_keep_order Sample.Number_toString Sample.no_rules
           Sample.initialMessage Sample.finalMessage ""); reflexivity.
Defined.

Lemma existsb_Permutation (A : Type) (f : A -> bool) (l l' : list A) :
  Permutation l l' -> existsb f l = existsb f l'.
Proof.
  induction 1 as [| x l l' _ IH | x y l | l l' l'' _ IH1 _ IH2]; simpl.
  - reflexivity.
  - now rewrite IH.
  - now destruct (f x), (f y).
  - congruence.
Qed.

Lemma existsb_incl (A : Type) (f : A -> bool) (l l' : list A) :
  incl l l' -> existsb f l = true -> existsb f l' = true.
Proof.
  intros Hincl. rewrite !existsb_exists. intros [x [Hin Hf]].
  exists x. split; [now apply Hincl | exact Hf].
Qed.

Lemma shouldIgnorePath_no_rules (config : Config) (p : string) :
  ignoredPaths config = [] -> shouldIgnorePath config p = false.
Proof. unfold shouldIgnorePath, some. now intros ->. Qed.

(** The comparison depends on the configuration only through the two
    suppression tests. *)
Lemma detectChanges_rules_ext Number_toString config1 config2 :
  (forall k, includes (ignoredKeys config1) k = includes (ignoredKeys config2) k) ->
  (forall p, shouldIgnorePath config1 p = shouldIgnorePath config2 p) ->
  forall C P currentPath,
    detectChanges Number_toString config1 P C currentPath
    = detectChanges Number_toString config2 P C currentPath.
Proof.
  intros Hkeys Hpaths C.
  induction C as [C IH] using Value_object_entries_ind. intros P currentPath.
  rewrite !detectChanges_eq. destruct (falsy P); [reflexivity|]. f_equal.
  apply loop_ext. intros k cv Hin. unfold change_of.
  rewrite Hkeys, Hpaths.
  destruct (includes (ignoredKeys config2) k); [reflexivity|].
  destruct (shouldIgnorePath config2 (propertyPath currentPath k)); [reflexivity|].
  destruct (get P k) as [pv|]; [|reflexivity].
  destruct (is_object (Some cv)) eqn:Hc; [|reflexivity].
  destruct (is_object (Some pv)); [|reflexivity].
  cbn [andb]. cbv zeta. now rewrite (IH k cv Hin Hc).
Qed.

(** X5. Without ignored paths the path argument has no effect: the result
    is the same at every path. *)
Theorem path_is_irrelevant_without_ignored_paths
  (Number_toString : float -> string) (config : Config) (P C : Value)
  (path1 path2 : string) :
  ignoredPaths config = [] ->
  detectChanges Number_toString config P C path1
  = detectChanges Number_toString config P C path2.
Proof.
  intros Hnone. revert P path1 path2.
  induction C as [C IH] using Value_object_entries_ind. intros P path1 path2.
  rewrite !detectChanges_eq. destruct (falsy P); [reflexivity|]. f_equal.
  apply loop_ext. intros k cv Hin. unfold change_of.
  rewrite !shouldIgnorePath_no_rules by assumption.
  destruct (includes (ignoredKeys config) k); [reflexivity|].
  destruct (get P k) as [pv|]; [|reflexivity].
  destruct (is_object (Some cv)) eqn:Hc; [|reflexivity].
  destruct (is_object (Some pv)); [|reflexivity].
  cbn [andb]. cbv zeta.
  now rewrite (IH k cv Hin Hc pv (propertyPath path1 k) (propertyPath path2 k)).
Qed.

Lemma path_is_irrelevant_without_ignored_paths_witness :
  detectChanges Sample.Number_toString Sample.temperature_rule
    Sample.initialMessage Sample.finalMessage ""
  = detectChanges Sample.Number_toString Sample.temperature_rule
      Sample.initialMessage Sample.finalMessage "sensors.kitchen".
Proof.
  apply (path_is_irrelevant_without_ignored_paths Sample.Number_toString
           Sample.temperature_rule Sample.initialMessage Sample.finalMessage
           "" "sensors.kitchen").
  reflexivity.
Defined.

(** X6. Adding rules never adds a report: a key reported under a
    configuration is reported under every configuration with fewer ignored
    keys and paths. *)
Theorem more_rules_report_less (Number_toString : float -> string)
  (config1 config2 : Config) (P C : Value) (currentPath k : string) :
  incl (ignoredKeys config1) (ignoredKeys config2) ->
  incl (ignoredPaths config1) (ignoredPaths config2) ->
  falsy P = false ->
  In k (keys (detectChanges Number_toString config2 P C currentPath)) ->
  In k (keys (detectChanges Number_toString config1 P C currentPath)).
Proof.
  intros Hkeys Hpaths. revert P currentPath k.
  induction C as [C IH] using Value_object_entries_ind.
  intros P currentPath k Htruthy Hin.
  apply detectChanges_keys_iff in Hin; [|assumption].
  apply detectChanges_keys_iff; [assumption|].
  destruct Hin as [cv [Hcv Hc]]. exists cv. split; [assumption|].
  unfold change_of in *.
  destruct (includes (ignoredKeys config1) k) eqn:E1.
  { unfold includes in *.
    rewrite (existsb_incl _ Hkeys E1) in Hc. congruence. }
  destruct (includes (ignoredKeys config2) k); [congruence|].
  destruct (shouldIgnorePath config1 (propertyPath currentPath k)) eqn:E2.
  { unfold shouldIgnorePath, some in *.
    rewrite (existsb_incl _ Hpaths E2) in Hc. congruence. }
  destruct (shouldIgnorePath config2 (propertyPath currentPath k)); [congruence|].
  destruct (get P k) as [pv|]; [|exact Hc].
  destruct (is_object (Some cv)) eqn:Hcobj; [|exact Hc].
  destruct (is_object (Some pv)) eqn:Hpobj; [|exact Hc].
  cbn [andb] in *. cbv zeta in *.
  destruct (keys (detectChanges Number_toString config2 pv cv
                    (propertyPath currentPath k))) as [|k' ks] eqn:E;
    [cbn [List.length Nat.ltb Nat.leb] in Hc; congruence|].
  assert (Hk' : In k' (keys (detectChanges Number_toString config1 pv cv
                               (propertyPath currentPath k)))).
  { apply (IH k cv Hcv Hcobj pv); [now apply is_object_truthy|].
    rewrite E. now left. }
  destruct (keys (detectChanges Number_toString config1 pv cv
                    (propertyPath currentPath k))); [contradiction|].
  cbn [List.length Nat.ltb Nat.leb]. discriminate.
Qed.

Lemma more_rules_report_less_witness :
  In "humidity"
    (keys (detectChanges Sample.Number_toString Sample.no_rules
             Sample.initialMessage Sample.finalMessage "")).
Proof.
  apply (more_rules_report_less Sample.Number_toString Sample.no_rules
           Sample.temperature_rule Sample.initialMessage Sample.finalMessage "").
  - intros x [].
  - intros x [].
  - reflexivity.
  - vm_compute. left. reflexivity.
Defined.

(** X7. The order of the rules has no effect, nor has the message filter:
    two configurations whose ignored keys and ignored paths are the same up
    to order give the same result. *)
Theorem rule_order_is_irrelevant (Number_toString : float -> string)
  (config1 config2 : Config) (P C : Value) (currentPath : string) :
  Permutation (ignoredKeys config1) (ignoredKeys config2) ->
  Permutation (ignoredPaths config1) (ignoredPaths config2) ->
  detectChanges Number_toString config1 P C currentPath
  = detectChanges Number_toString config2 P C currentPath.
Proof.
  intros Hkeys Hpaths. apply detectChanges_rules_ext.
  - intros k. unfold includes. now apply existsb_Permutation.
  - intros p. unfold shouldIgnorePath, some. now apply existsb_Permutation.
Qed.

Lemma rule_order_is_irrelevant_witness :
  let rules1 := {| messageFiltering := default_messageFiltering;
                   ignoredKeys := ["status"; "humidity"];
                   ignoredPaths := ["device.battery"; "device.id"] |} in
  let rules2 := {| messageFiltering := {| condition := None |};
                   ignoredKeys := ["humidity"; "status"];
                   ignoredPaths := ["device.id"; "device.battery"] |} in
  detectChanges Sample.Number_toString rules1
    Sample.initialMessage Sample.finalMessage ""
  = detectChanges Sample.Number_toString rules2
      Sample.initialMessage Sample.finalMessage "".
Proof.
  cbv zeta. apply rule_order_is_irrelevant; apply perm_swap.
Defined.

(** The model stays within well-formed values: the result of comparing
    with a well-formed current value is well formed. *)
Lemma result_is_well_formed (Number_toString : float -> string)
  (config : Config) (P C : Value) (currentPath : string) :
  wf_value C = true ->
  wf_value (detectChanges Number_toString config P C currentPath) = true.
Proof.
  revert P currentPath. induction C as [C IH] using Value_object_entries_ind.
  intros P currentPath HwfC. rewrite detectChanges_eq.
  destruct (falsy P); [exact HwfC|].
  apply loop_wf; [reflexivity|]. intros k cv x Hin Hx.
  pose proof (wf_entry C k cv HwfC Hin) as Hcv.
  unfold change_of in Hx.
  destruct (includes (ignoredKeys config) k); [discriminate|].
  destruct (shouldIgnorePath config (propertyPath currentPath k)); [discriminate|].
  destruct (get P k) as [pv|]; [|congruence].
  destruct (is_object (Some cv)) eqn:Hc;
    [|cbn [andb] in Hx; destruct (differ _ _); congruence].
  destruct (is_object (Some pv));
    [|cbn [andb] in Hx; destruct (differ _ _); congruence].
  cbn [andb] in Hx. cbv zeta in Hx.
  destruct (Nat.ltb 0 _); [|discriminate].
  injection Hx as <-. now apply (IH k cv Hin Hc).
Qed.

Lemma result_is_well_formed_witness :
  wf_value (detectChanges Sample.Number_toString Sample.no_rules
              Sample.initialMessage Sample.updatedMessage "") = true.
Proof.
  apply (result_is_well_formed Sample.Number_toString Sample.no_rules
           Sample.initialMessage Sample.updatedMessage ""). reflexivity.
Defined.

(** ** Further properties of paths *)

Lemma shouldIgnorePath_exists (config : Config) (p : string) :
  shouldIgnorePath config p = true <->
  exists r, In r (ignoredPaths config) /\
            (p = r \/ exists rest, p = r ++ "." ++ rest).
Proof.
  unfold shouldIgnorePath, some. rewrite existsb_exists.
  split; intros [r [Hin H]]; exists r; (split; [assumption|]); cbv beta in *.
  - destruct (String.eqb_spec r p) as [->|Hne]; [now left|].
    destruct (startsWith p (r ++ ".")) eqn:E; [|discriminate].
    apply startsWith_app in E. destruct E as [rest ->]. right. exists rest.
    apply append_assoc.
  - destruct H as [->|[rest ->]]; [now rewrite String.eqb_refl|].
    destruct (String.eqb r (r ++ "." ++ rest)); [reflexivity|].
    replace (startsWith (r ++ "." ++ rest) (r ++ ".")) with true; [reflexivity|].
    symmetry. apply startsWith_app. exists rest.
    symmetry. apply append_assoc.
Qed.

(** X8. Suppression is inherited: below a suppressed, non-empty path every
    property path is suppressed as well. *)
Theorem suppression_is_inherited (config : Config) (p key : string) :
  p <> "" -> shouldIgnorePath config p = true ->
  shouldIgnorePath config (propertyPath p key) = true.
Proof.
  intros Hp H. apply shouldIgnorePath_exists in H.
  destruct H as [r [Hin H]]. apply shouldIgnorePath_exists.
  exists r. split; [assumption|]. right.
  unfold propertyPath. destruct p as [|c p]; [congruence|].
  cbn [truthy_string].
  destruct H as [->|[rest ->]].
  - now exists key.
  - exists (rest ++ "." ++ key). rewrite !append_assoc. reflexivity.
Qed.

Lemma suppression_is_inherited_witness :
  shouldIgnorePath Sample.battery_rule (propertyPath "device.battery" "level")
  = true.
Proof.
  apply (suppression_is_inherited Sample.battery_rule (p := "device.battery"));
    [discriminate | reflexivity].
Defined.

Lemma split_nonempty (sep : ascii) (s : string) : split sep s <> [].
Proof.
  destruct s as [|c s]; simpl; [discriminate|].
  destruct (Ascii.eqb c sep); [discriminate|].
  destruct (split sep s); discriminate.
Qed.

Lemma split_app (sep : ascii) (p q : string) :
  split sep (p ++ String sep q) = (split sep p ++ split sep q)%list.
Proof.
  induction p as [|c p IH]; simpl.
  - now rewrite Ascii.eqb_refl.
  - destruct (Ascii.eqb c sep); [now rewrite IH|].
    rewrite IH. pose proof (split_nonempty sep p) as Hne.
    destruct (split sep p) as [|seg segs]; [congruence | reflexivity].
Qed.

Lemma split_no_sep (sep : ascii) (s : string) :
  Forall (fun seg => contains sep seg = false) (split sep s).
Proof.
  induction s as [|c s IH]; simpl.
  - constructor; [reflexivity | constructor].
  - destruct (Ascii.eqb c sep) eqn:E.
    + constructor; [reflexivity | exact IH].
    + destruct (split sep s) as [|seg segs]; [repeat constructor; simpl; now rewrite E|].
      inversion IH as [|? ? Hseg Hsegs]; subst.
      constructor; [simpl; now rewrite E, Hseg | exact Hsegs].
Qed.

Lemma getValueByPath_walk (V : Value) (p : string) :
  p <> "" -> getValueByPath V p = walk (Some V) (split "." p).
Proof.
  intros Hp. unfold getValueByPath. now destruct p.
Qed.

(** X9. Resolution composes: resolving [p.q] is resolving [q] in what [p]
    resolves to, and is absent when [p] resolves to nothing. *)
Theorem resolution_composes (V : Value) (p q : string) :
  p <> "" -> q <> "" ->
  getValueByPath V (p ++ "." ++ q) =
  match getValueByPath V p with
  | Some v => getValueByPath v q
  | None => undefined
  end.
Proof.
  intros Hp Hq.
  rewrite getValueByPath_walk by (destruct p; [congruence | discriminate]).
  change (p ++ "." ++ q) with (p ++ String "." q).
  rewrite split_app, walk_app, <- getValueByPath_walk by assumption.
  destruct (getValueByPath V p) as [v|].
  - now rewrite getValueByPath_walk.
  - apply walk_undefined.
Qed.

Lemma resolution_composes_witness :
  getValueByPath Sample.pushStatus ("print" ++ "." ++ "command") =
  match getValueByPath Sample.pushStatus "print" with
  | Some v => getValueByPath v "command"
  | None => undefined
  end.
Proof.
  apply (resolution_composes Sample.pushStatus (p := "print") (q := "command"));
    discriminate.
Defined.

Lemma lookup_undotted (seg : string) (props : list (string * Value)) :
  contains "." seg = false -> lookup seg (undotted props) = lookup seg props.
Proof.
  intros Hseg. unfold undotted.
  induction props as [|[k w] rest IH]; simpl; [reflexivity|].
  destruct (contains "." k) eqn:Hk; simpl.
  - destruct (String.eqb_spec seg k) as [->|Hne]; [congruence | exact IH].
  - now rewrite IH.
Qed.

(** X10. A key that contains a dot cannot be addressed: resolving any path
    in a mapping gives what it gives in the mapping without its dotted
    keys. *)
Theorem dotted_keys_are_invisible (props : list (string * Value)) (p : string) :
  getValueByPath (VObj props) p = getValueByPath (VObj (undotted props)) p.
Proof.
  destruct (string_dec p "") as [->|Hp]; [reflexivity|].
  rewrite !getValueByPath_walk by assumption.
  pose proof (split_no_sep "." p) as Hsegs.
  pose proof (split_nonempty "." p) as Hne.
  destruct (split "." p) as [|seg rest]; [congruence|].
  inversion Hsegs as [|? ? Hseg _]; subst.
  rewrite !walk_cons. cbn [is_object typeof_object is_null andb negb get].
  now rewrite lookup_undotted.
Qed.

(** ** Further properties of the handler *)

(** X11. A condition whose value is a mapping or a sequence turns every
    message away: no part of a message is the same object as a value of the
    configuration. *)
Theorem object_valued_condition_rejects_everything (config : Config)
  (F : FilterCondition) (M : Value) :
  condition (messageFiltering config) = Some F ->
  path F <> "" -> is_object (value F) = true ->
  rejects config M = true.
Proof.
  intros HF Hpath Hobj. unfold rejects. rewrite HF.
  destruct (path F) as [|c p] eqn:E; [congruence|]. cbn [truthy_string andb].
  destruct (value F) as [[| b | n | s | items | props]|]; try discriminate;
    now destruct (getValueByPath M (String c p)) as [[]|].
Qed.

Lemma object_valued_condition_rejects_everything_witness :
  rejects {| messageFiltering :=
               {| condition := Some {| path := "print";
                                       value := Some (VObj [("command", VStr "get_version")]) |} |};
             ignoredKeys := []; ignoredPaths := [] |}
    Sample.otherCommand = true.
Proof.
  apply (@object_valued_condition_rejects_everything _
           {| path := "print";
              value := Some (VObj [("command", VStr "get_version")]) |}
           Sample.otherCommand);
    [reflexivity | discriminate | reflexivity].
Defined.

(** X12. A condition with a path and no value admits exactly the messages
    in which the path resolves to nothing. *)
Theorem condition_without_value_admits_absent_only (config : Config)
  (F : FilterCondition) (M : Value) :
  condition (messageFiltering config) = Some F ->
  path F <> "" -> value F = undefined ->
  (rejects config M = false <-> getValueByPath M (path F) = undefined).
Proof.
  intros HF Hpath Hvalue. unfold rejects. rewrite HF, Hvalue.
  destruct (path F) as [|c p] eqn:E; [congruence|]. cbn [truthy_string andb].
  destruct (getValueByPath M (String c p)) as [[]|]; simpl;
    split; intros H; try reflexivity; discriminate.
Qed.

Lemma condition_without_value_admits_absent_only_witness :
  rejects {| messageFiltering :=
               {| condition := Some {| path := "print.command"; value := undefined |} |};
             ignoredKeys := []; ignoredPaths := [] |}
    Sample.initialMessage = false.
Proof.
  apply (@condition_without_value_admits_absent_only _
           {| path := "print.command"; value := undefined |}
           Sample.initialMessage);
    [reflexivity | discriminate | reflexivity | reflexivity].
Defined.

Section Handler.

Variable Number_toString : float -> string.
Variable JSON_parse : string -> option Value.
Variable config : Config.

Local Abbreviation handle := (on_message Number_toString JSON_parse config).
Local Abbreviation process := (run Number_toString JSON_parse config).

Lemma is_nullish_Some (v : Value) : is_nullish (Some v) = is_null (Some v).
Proof. now destruct v. Qed.

(** Each message appends at most two entries to the log. *)
Lemma on_message_log st topic raw :
  exists added,
    log (fst (handle st topic raw)) = (log st ++ added)%list
    /\ List.length added <= 2.
Proof.
  unfold on_message, caught.
  destruct (JSON_parse raw) as [M|]; [|eexists; split; [reflexivity | simpl; lia]].
  destruct (rejects config M);
    [exists []; split; [now rewrite app_nil_r | simpl; lia]|].
  cbv zeta. destruct (negb _);
    [|exists []; split; [now rewrite app_nil_r | simpl; lia]].
  destruct (is_null _); [eexists; split; [reflexivity | simpl; lia]|].
  destruct (Nat.ltb 0 _).
  - eexists; split; [reflexivity | simpl; lia].
  - exists []; split; [now rewrite app_nil_r | simpl; lia].
Qed.

Lemma run_cons st raw raws :
  process st (raw :: raws) = process (fst (handle st "" raw)) raws.
Proof. reflexivity. Qed.

End Handler.

(** X13. The first admitted message only seeds the baseline: with no
    baseline yet, the message becomes the baseline and nothing is logged. *)
Theorem first_message_seeds_silently (Number_toString : float -> string)
  (JSON_parse : string -> option Value) (config : Config)
  (st : State) (topic raw : string) (M : Value) :
  previousMessage st = VNull ->
  JSON_parse raw = Some M -> rejects config M = false ->
  on_message Number_toString JSON_parse config st topic raw
  = ({| previousMessage := M; log := log st |}, Compared M).
Proof.
  intros Hprev Hparse Hadm. unfold on_message.
  rewrite Hparse, Hadm, Hprev. cbv zeta.
  now rewrite detectChanges_eq.
Qed.

Lemma first_message_seeds_silently_witness :
  on_message Sample.Number_toString Sample.JSON_parse Sample.no_rules
    initial_state "sensors" (Sample.text Sample.initialMessage)
  = ({| previousMessage := Sample.initialMessage; log := [] |},
     Compared Sample.initialMessage).
Proof.
  apply (@first_message_seeds_silently Sample.Number_toString Sample.JSON_parse
           Sample.no_rules initial_state "sensors"
           (Sample.text Sample.initialMessage) Sample.initialMessage);
    reflexivity.
Defined.

(** X14. A message that repeats the baseline changes nothing: the state
    stays as it is, log included, whatever the message and the rules are. *)
Theorem repeated_message_is_silent (Number_toString : float -> string)
  (JSON_parse : string -> option Value) (config : Config)
  (st : State) (topic raw : string) (M : Value) :
  previousMessage st = M -> wf_value M = true ->
  JSON_parse raw = Some M -> rejects config M = false ->
  fst (on_message Number_toString JSON_parse config st topic raw) = st
  /\ (falsy M = false ->
      snd (on_message Number_toString JSON_parse config st topic raw)
      = Compared (VObj [])).
Proof.
  intros Hprev Hwf Hparse Hadm. unfold on_message.
  rewrite Hparse, Hadm, Hprev. cbv zeta.
  destruct st as [prev lg]. simpl in Hprev. subst prev.
  cbn [previousMessage log].
  destruct (falsy M) eqn:Hfalsy.
  - rewrite detectChanges_eq, Hfalsy. split; [|discriminate].
    destruct M as [| b | n | s | items | props]; try discriminate;
      try reflexivity.
    destruct s; [reflexivity | discriminate].
  - rewrite (detectChanges_self Number_toString config M Hwf Hfalsy).
    split; [|intros _]; now destruct M.
Qed.

Lemma repeated_message_is_silent_witness :
  let st := {| previousMessage := Sample.updatedMessage; log := [] |} in
  fst (on_message Sample.Number_toString Sample.JSON_parse Sample.battery_rule
         st "sensors" (Sample.text Sample.updatedMessage)) = st
  /\ (falsy Sample.updatedMessage = false ->
      snd (on_message Sample.Number_toString Sample.JSON_parse Sample.battery_rule
             st "sensors" (Sample.text Sample.updatedMessage))
      = Compared (VObj [])).
Proof.
  cbv zeta.
  apply (@repeated_message_is_silent Sample.Number_toString Sample.JSON_parse
           Sample.battery_rule
           {| previousMessage := Sample.updatedMessage; log := [] |} "sensors"
           (Sample.text Sample.updatedMessage) Sample.updatedMessage);
    reflexivity.
Defined.

(** X15. An admitted message becomes the baseline, with one exception: the
    message [null] after a baseline that is falsy but not [null] is dropped
    by the [catch] block, and the baseline stays. *)
Theorem admitted_message_becomes_baseline (Number_toString : float -> string)
  (JSON_parse : string -> option Value) (config : Config)
  (st : State) (topic raw : string) (M : Value) :
  JSON_parse raw = Some M -> rejects config M = false ->
  previousMessage (fst (on_message Number_toString JSON_parse config st topic raw))
  = if negb (is_null (Some (previousMessage st))) && falsy (previousMessage st)
       && is_null (Some M)
    then previousMessage st else M.
Proof.
  intros Hparse Hadm. unfold on_message. rewrite Hparse, Hadm. cbv zeta.
  rewrite is_nullish_Some, detectChanges_eq.
  destruct (is_null (Some (previousMessage st))); [reflexivity|].
  destruct (falsy (previousMessage st)); cbn [negb andb].
  - destruct (is_null (Some M)); [reflexivity|].
    now destruct (Nat.ltb 0 _).
  - cbn [is_null]. now destruct (Nat.ltb 0 _).
Qed.

Lemma admitted_message_becomes_baseline_witness :
  previousMessage
    (fst (on_message Sample.Number_toString Sample.JSON_parse Sample.no_rules
            {| previousMessage := Sample.initialMessage; log := [] |}
            "sensors" (Sample.text Sample.updatedMessage)))
  = Sample.updatedMessage.
Proof.
  apply (@admitted_message_becomes_baseline Sample.Number_toString
           Sample.JSON_parse Sample.no_rules
           {| previousMessage := Sample.initialMessage; log := [] |}
           "sensors" (Sample.text Sample.updatedMessage)
           Sample.updatedMessage); reflexivity.
Defined.

(** X16. After a baseline that is falsy but not [null] (the messages [0],
    [false] and the empty string), the next admitted message is reported
    whole, as if every property had changed. *)
Theorem falsy_baseline_reports_whole_message (Number_toString : float -> string)
  (JSON_parse : string -> option Value) (config : Config)
  (st : State) (topic raw : string) (M : Value) :
  falsy (previousMessage st) = true -> previousMessage st <> VNull ->
  keys M <> [] ->
  JSON_parse raw = Some M -> rejects config M = false ->
  on_message Number_toString JSON_parse config st topic raw
  = ({| previousMessage := M;
        log := (log st ++ [ {| level := info;
                               message := JSON_stringify Number_toString M;
                               meta := [] |} ])%list |},
     Compared M).
Proof.
  intros Hfalsy Hnotnull Hkeys Hparse Hadm. unfold on_message.
  rewrite Hparse, Hadm. cbv zeta. rewrite detectChanges_eq, Hfalsy.
  replace (negb (is_nullish (Some (previousMessage st)))) with true
    by (destruct (previousMessage st); simpl; congruence).
  replace (is_null (Some M)) with false
    by (destruct M; simpl; try reflexivity; now elim Hkeys).
  destruct (keys M); [congruence | reflexivity].
Qed.

Lemma falsy_baseline_reports_whole_message_witness :
  let st := {| previousMessage := VBool false; log := [] |} in
  on_message Sample.Number_toString Sample.JSON_parse Sample.no_rules
    st "sensors" (Sample.text Sample.otherCommand)
  = ({| previousMessage := Sample.otherCommand;
        log := [ {| level := info; message := Sample.text Sample.otherCommand;
                    meta := [] |} ] |},
     Compared Sample.otherCommand).
Proof.
  cbv zeta.
  apply (@falsy_baseline_reports_whole_message Sample.Number_toString
           Sample.JSON_parse Sample.no_rules
           {| previousMessage := VBool false; log := [] |} "sensors"
           (Sample.text Sample.otherCommand) Sample.otherCommand);
    try reflexivity; discriminate.
Defined.

(** X17. The log only grows: handling any messages keeps every earlier
    entry in place and appends at most two entries per message. *)
Theorem log_only_grows (Number_toString : float -> string)
  (JSON_parse : string -> option Value) (config : Config)
  (raws : list string) (st : State) :
  exists added,
    log (run Number_toString JSON_parse config st raws) = (log st ++ added)%list
    /\ List.length added <= 2 * List.length raws.
Proof.
  revert st. induction raws as [|raw raws IH]; intros st.
  - exists []. split; [now rewrite app_nil_r | simpl; lia].
  - rewrite run_cons.
    destruct (on_message_log Number_toString JSON_parse config st "" raw)
      as [added1 [E1 H1]].
    destruct (IH (fst (on_message Number_toString JSON_parse config st "" raw)))
      as [added2 [E2 H2]].
    exists (added1 ++ added2)%list. split.
    + now rewrite E2, E1, app_assoc.
    + rewrite length_app. cbn [List.length]. lia.
Qed.

(** X18. Messages the filter turns away are invisible: a stream of
    messages leaves the same state, log included, as the stream without
    them. *)
Theorem rejected_messages_are_invisible (Number_toString : float -> string)
  (JSON_parse : string -> option Value) (config : Config)
  (raws : list string) (st : State) :
  run Number_toString JSON_parse config st raws
  = run Number_toString JSON_parse config st
      (filter (fun raw =>
                 match JSON_parse raw with
                 | Some M => negb (rejects config M)
                 | None => true
                 end) raws).
Proof.
  revert st. induction raws as [|raw raws IH]; intros st; [reflexivity|].
  rewrite run_cons. cbn [filter].
  destruct (JSON_parse raw) as [M|] eqn:Hparse.
  - destruct (rejects config M) eqn:Hrej; cbn [negb].
    + unfold on_message at 1. rewrite Hparse, Hrej. cbn [fst]. apply IH.
    + rewrite run_cons. apply IH.
  - rewrite run_cons. apply IH.
Qed.

(** ** Properties of the default log file name *)

Lemma length_append (a b : string) :
  String.length (a ++ b) = String.length a + String.length b.
Proof. induction a as [|c a IH]; simpl; [reflexivity | now rewrite IH]. Qed.

Lemma String_of_digits (n : nat) : all_digits (String_of n) = true.
Proof.
  unfold String_of, index_key. generalize (Nat.to_uint n). intros u.
  induction u; simpl; auto.
Qed.

Lemma String_of_nonempty (n : nat) : String_of n <> "".
Proof.
  unfold String_of, index_key. intros H.
  apply (f_equal NilEmpty.uint_of_string) in H.
  rewrite NilEmpty.usu in H. simpl in H. injection H as H.
  assert (E : n = 0).
  { rewrite <- (DecimalNat.Unsigned.of_to n), H. reflexivity. }
  subst n. discriminate H.
Qed.

(** The decimal text of a number has no leading zero before further
    digits. *)
Lemma String_of_no_leading_zero (a b : nat) :
  String_of b <> String "0" (String_of a).
Proof.
  unfold String_of, index_key. intros H.
  apply (f_equal NilEmpty.uint_of_string) in H.
  cbn [NilEmpty.uint_of_string] in H. rewrite !NilEmpty.usu in H.
  simpl in H. injection H as H.
  assert (E : b = a).
  { apply (f_equal Nat.of_uint) in H.
    rewrite DecimalNat.Unsigned.of_to in H. rewrite H.
    change (Nat.of_uint (D0 (Nat.to_uint a))) with (Nat.of_uint (Nat.to_uint a)).
    apply DecimalNat.Unsigned.of_to. }
  subst b. apply (f_equal nb_digits) in H. simpl in H. lia.
Qed.

Lemma padStart_digits (s : string) (n : nat) :
  all_digits s = true -> all_digits (padStart s n "0") = true.
Proof.
  intros Hs. unfold padStart. destruct (Nat.leb n (String.length s)); [exact Hs|].
  induction (n - String.length s) as [|m IH]; simpl; [exact Hs | exact IH].
Qed.

Lemma padStart_String_of_inj (a b : nat) :
  padStart (String_of a) 2 "0" = padStart (String_of b) 2 "0" -> a = b.
Proof.
  pose proof (String_of_nonempty a) as Ha.
  pose proof (String_of_nonempty b) as Hb.
  pose proof (String_of_no_leading_zero a b) as Hab.
  pose proof (String_of_no_leading_zero b a) as Hba.
  unfold padStart. intros H. apply index_key_inj. fold (String_of a) (String_of b).
  destruct (String_of a) as [|c1 [|c2 ra]], (String_of b) as [|d1 [|d2 rb]];
    simpl in H; try congruence.
Qed.

(** Two texts of digits, each followed by a separator that is no digit,
    are equal only when the digits and the rests are. *)
Lemma digits_before_separator (sep : ascii) (a b x y : string) :
  is_digit sep = false ->
  all_digits a = true -> all_digits b = true ->
  a ++ String sep x = b ++ String sep y -> a = b /\ x = y.
Proof.
  intros Hsep. revert b. induction a as [|c a IH]; intros [|d b] Ha Hb H;
    simpl in *.
  - injection H as ->. now split.
  - injection H as <- _. apply andb_true_iff in Hb. destruct Hb as [Hd _]. congruence.
  - injection H as -> _. apply andb_true_iff in Ha. destruct Ha as [Hc _]. congruence.
  - injection H as -> H. apply andb_true_iff in Ha, Hb.
    destruct (IH b (proj2 Ha) (proj2 Hb) H) as [-> ->]. now split.
Qed.

Lemma append_inv_head (a x y : string) : a ++ x = a ++ y -> x = y.
Proof.
  induction a as [|c a IH]; simpl; [trivial|]. intros [= H]. auto.
Qed.

(** X19. The default log file name determines the clock reading it was
    made from: two readings that differ in the year, month, day, hour,
    minute or second give different names. *)
Theorem generateDefaultLogFilename_injective (d1 d2 : Date) :
  generateDefaultLogFilename d1 = generateDefaultLogFilename d2 -> d1 = d2.
Proof.
  unfold generateDefaultLogFilename. cbv zeta. intros H.
  apply append_inv_head in H.
  apply digits_before_separator in H;
    [| reflexivity | apply String_of_digits | apply String_of_digits].
  destruct H as [Hyear H]. apply index_key_inj in Hyear.
  apply digits_before_separator in H;
    [| reflexivity | apply padStart_digits, String_of_digits
     | apply padStart_digits, String_of_digits].
  destruct H as [Hmonth H]. apply padStart_String_of_inj in Hmonth.
  apply digits_before_separator in H;
    [| reflexivity | apply padStart_digits, String_of_digits
     | apply padStart_digits, String_of_digits].
  destruct H as [Hday H]. apply padStart_String_of_inj in Hday.
  apply digits_before_separator in H;
    [| reflexivity | apply padStart_digits, String_of_digits
     | apply padStart_digits, String_of_digits].
  destruct H as [Hhours H]. apply padStart_String_of_inj in Hhours.
  apply digits_before_separator in H;
    [| reflexivity | apply padStart_digits, String_of_digits
     | apply padStart_digits, String_of_digits].
  destruct H as [Hminutes H]. apply padStart_String_of_inj in Hminutes.
  change ".log" with (String "." "log") in H.
  apply digits_before_separator in H;
    [| reflexivity | apply padStart_digits, String_of_digits
     | apply padStart_digits, String_of_digits].
  destruct H as [Hseconds _]. apply padStart_String_of_inj in Hseconds.
  destruct d1, d2. simpl in *. f_equal; lia.
Qed.

Lemma generateDefaultLogFilename_injective_witness :
  let d := {| getFullYear := 2024; getMonth := 0; getDate := 5;
              getHours := 13; getMinutes := 7; getSeconds := 0 |} in
  generateDefaultLogFilename d = "mqtt-delta-2024-01-05-13-07-00.log"
  /\ d = d.
Proof.
  cbv zeta. split; [reflexivity|].
  apply generateDefaultLogFilename_injective. reflexivity.
Defined.

Lemma padStart_length_2 (n : nat) :
  n < 100 -> String.length (padStart (String_of n) 2 "0") = 2.
Proof.
  intros H. do 100 (destruct n as [|n]; [reflexivity|]). lia.
Qed.

(** X20. For a calendar date with a year of four digits the default log
    file name has the fixed form [mqtt-delta-YYYY-MM-DD-HH-mm-ss.log]: 34
    characters, each field of two digits. *)
Theorem generateDefaultLogFilename_length (d : Date) :
  valid_date d = true ->
  String.length (generateDefaultLogFilename d) = 34.
Proof.
  unfold valid_date. rewrite !andb_true_iff, Nat.eqb_eq, !Nat.leb_le.
  intros [[[[[[Hy Hm] Hd1] Hd2] Hh] Hmin] Hs].
  unfold generateDefaultLogFilename. cbv zeta.
  rewrite !length_append, Hy.
  rewrite !padStart_length_2 by lia. reflexivity.
Qed.

Lemma generateDefaultLogFilename_length_witness :
  String.length
    (generateDefaultLogFilename
       {| getFullYear := 2024; getMonth := 11; getDate := 31;
          getHours := 23; getMinutes := 59; getSeconds := 59 |}) = 34.
Proof.
  apply generateDefaultLogFilename_length. reflexivity.
Defined.

(** ** Silence and the baseline *)



Lemma on_message_baseline_source Number_toString JSON_parse config st topic raw :
  let st' := fst (on_message Number_toString JSON_parse config st topic raw) in
  previousMessage st' = previousMessage st
  \/ JSON_parse raw = Some (previousMessage st').
Proof.
  cbv zeta. unfold on_message.
  destruct (JSON_parse raw) as [M|]; [|now left].
  destruct (rejects config M); [now left|]. cbv zeta.
  destruct (negb _); [|now right].
  destruct (is_null _); [now left|].
  destruct (Nat.ltb 0 _); now right.
Qed.

(** X22. The baseline is replaced whole or not at all: after any stream of
    messages it is the baseline the handler started with or the decoded
    value of one of the messages. *)
Theorem baseline_is_a_received_message (Number_toString : float -> string)
  (JSON_parse : string -> option Value) (config : Config)
  (raws : list string) (st : State) :
  let final := run Number_toString JSON_parse config st raws in
  previousMessage final = previousMessage st
  \/ exists raw, In raw raws /\ JSON_parse raw = Some (previousMessage final).
Proof.
  cbv zeta. revert st. induction raws as [|raw raws IH]; intros st.
  - now left.
  - rewrite run_cons.
    destruct (IH (fst (on_message Number_toString JSON_parse config st "" raw)))
      as [E|[raw' [Hin Hparse]]].
    + destruct (on_message_baseline_source Number_toString JSON_parse config
                  st "" raw) as [E'|E'].
      * left. congruence.
      * right. exists raw. split; [now left | congruence].
    + right. exists raw'. split; [now right | assumption].
Qed.
